(** * lkjmc: the instruction compiler of [src/lkjmc/main.py]

    A shallow embedding of the line parser ([parse_commands_from_file]),
    of the payload escaping ([escape_command_string]) and of the main
    placement loop, followed by the properties established about them.

    Python text is a sequence of Unicode code points; it is modelled as a
    list of code points, so that [str.strip], the regular expression class
    [\d] and [float] see the same characters as the interpreter does. *)

From Stdlib Require Import String Ascii List ZArith NArith Lia Bool.
From Stdlib Require DecimalString Decimal.
Import ListNotations.

Local Open Scope Z_scope.

(** ** Text *)

Module Text.

Definition char := N.
Definition str := list char.

(** An ASCII literal of the source, as code points. *)
Definition lit (s : string) : str :=
  List.map N_of_ascii (list_ascii_of_string s).

Definition quote : char := 34%N.
Definition backslash : char := 92%N.
Definition space : char := 32%N.
Definition minus : char := 45%N.
Definition dot : char := 46%N.
Definition comma : char := 44%N.

Fixpoint str_eqb (a b : str) : bool :=
  match a, b with
  | [], [] => true
  | x :: a', y :: b' => N.eqb x y && str_eqb a' b'
  | _, _ => false
  end.

(** [s.startswith(p)] *)
Fixpoint startswith (p s : str) : bool :=
  match p, s with
  | [], _ => true
  | x :: p', y :: s' => N.eqb x y && startswith p' s'
  | _ :: _, [] => false
  end.

(** [str.isspace] on one code point: the characters Python treats as
    white space (Unicode 14 data of CPython 3.11). *)
Definition isspace (c : char) : bool :=
  ((9 <=? c) && (c <=? 13) || (28 <=? c) && (c <=? 32)
   || (c =? 133) || (c =? 160) || (c =? 5760)
   || (8192 <=? c) && (c <=? 8202)
   || (c =? 8232) || (c =? 8233) || (c =? 8239) || (c =? 8287)
   || (c =? 12288))%N.

Fixpoint lstrip (s : str) : str :=
  match s with
  | c :: s' => if isspace c then lstrip s' else s
  | [] => []
  end.

(** Right strip, written by recursion from the left: a character is kept
    when it is not white space or when something is kept after it. *)
Fixpoint rstrip (s : str) : str :=
  match s with
  | [] => []
  | c :: s' =>
      match rstrip s' with
      | [] => if isspace c then [] else [c]
      | r => c :: r
      end
  end.

(** [s.strip()] *)
Definition strip (s : str) : str := rstrip (lstrip s).

(** The code points of Unicode category Nd come in runs of ten, each
    starting at a digit zero; these are the zeros (Unicode 14). *)
Definition decimal_zeros : list N :=
  [48; 1632; 1776; 1984; 2406; 2534; 2662; 2790; 2918; 3046; 3174; 3302;
   3430; 3558; 3664; 3792; 3872; 4160; 4240; 6112; 6160; 6470; 6608; 6784;
   6800; 6992; 7088; 7232; 7248; 42528; 43216; 43264; 43472; 43504; 43600;
   44016; 65296; 66720; 68912; 69734; 69872; 69942; 70096; 70384; 70736;
   70864; 71248; 71360; 71472; 71904; 72016; 72784; 73040; 73120; 92768;
   92864; 93008; 120782; 120792; 120802; 120812; 120822; 123200; 123632;
   125264; 130032]%N.

(** The decimal value of a code point ([unicodedata.decimal]), if it is
    a decimal digit. *)
Fixpoint decimal_in (zeros : list N) (c : char) : option Z :=
  match zeros with
  | [] => None
  | z :: zs =>
      if ((z <=? c) && (c <? z + 10))%N then Some (Z.of_N (c - z))
      else decimal_in zs c
  end.

Definition decimal (c : char) : option Z := decimal_in decimal_zeros c.

(** What the class [\d] of a str pattern accepts. *)
Definition isdecimal (c : char) : bool :=
  match decimal c with Some _ => true | None => false end.

(** [str(n)] for an int, as an f-string field renders it. *)
Definition str_of_int (n : Z) : str :=
  lit (DecimalString.NilZero.string_of_int (Z.to_int n)).

(** [sep.join(parts)] *)
Fixpoint join (sep : str) (parts : list str) : str :=
  match parts with
  | [] => []
  | [p] => p
  | p :: ps => p ++ sep ++ join sep ps
  end.

(** [s.replace(c, by)] for a pattern of one character. *)
Definition replace1 (c : char) (by_ : str) (s : str) : str :=
  flat_map (fun x => if N.eqb x c then by_ else [x]) s.

(** [s.lower()] on ASCII text, which is all the configuration holds:
    [A]..[Z] go to [a]..[z], every other ASCII character is kept. *)
Definition lower_char (c : char) : char :=
  if ((65 <=? c) && (c <=? 90))%N then (c + 32)%N else c.
Definition lower (s : str) : str := List.map lower_char s.

Definition is_ascii (s : str) : bool := forallb (fun c => (c <? 128)%N) s.

End Text.
Import Text.

(** ** The regular expressions [re.match] is given

    A backtracking matcher for the fragment the source uses: single
    characters and [\d], the greedy quantifiers [?], [*] and [+] on them,
    sequencing and capturing groups.  Alternatives are tried in Python's
    order (greedy first), and the first success is the match. *)

Module Re.

Inductive atom : Type :=
| Chr (c : char)
| Digit.

Inductive regex : Type :=
| One (a : atom)
| Maybe (a : atom)
| Many (a : atom)
| Many1 (a : atom)
| Seq (r1 r2 : regex)
| Group (r : regex).

Definition accepts (a : atom) (c : char) : bool :=
  match a with
  | Chr c0 => N.eqb c c0
  | Digit => isdecimal c
  end.

Section Matcher.
Context {R : Type}.

Definition orelse (x y : option R) : option R :=
  match x with Some r => Some r | None => y end.

(** [a*] followed by [k]: the longest run first, then shorter ones. *)
Fixpoint many (a : atom) (s : str) (k : str -> option R) : option R :=
  match s with
  | c :: s' =>
      if accepts a c then orelse (many a s' k) (k s) else k s
  | [] => k []
  end.

Definition one (a : atom) (s : str) (k : str -> option R) : option R :=
  match s with
  | c :: s' => if accepts a c then k s' else None
  | [] => None
  end.

Definition maybe (a : atom) (s : str) (k : str -> option R) : option R :=
  match s with
  | c :: s' => if accepts a c then orelse (k s') (k s) else k s
  | [] => k []
  end.

(** [run r s caps k]: match [r] at the head of [s], then continue with
    [k] on the rest; [caps] are the groups closed so far. *)
Fixpoint run (r : regex) (s : str) (caps : list str)
         (k : str -> list str -> option R) : option R :=
  match r with
  | One a => one a s (fun s' => k s' caps)
  | Maybe a => maybe a s (fun s' => k s' caps)
  | Many a => many a s (fun s' => k s' caps)
  | Many1 a => one a s (fun s1 => many a s1 (fun s' => k s' caps))
  | Seq r1 r2 => run r1 s caps (fun s' caps' => run r2 s' caps' k)
  | Group r1 =>
      run r1 s caps
          (fun s' caps' =>
             k s' (caps' ++ [firstn (length s - length s')%nat s]))
  end.
End Matcher.

(** [re.match(r, s)]: the groups of the first match at the start of [s]
    and the text left after the match. *)
Definition rmatch (r : regex) (s : str) : option (list str * str) :=
  run r s [] (fun rest caps => Some (caps, rest)).

Fixpoint seq_of (rs : list regex) (last : regex) : regex :=
  match rs with
  | [] => last
  | r :: rs' => Seq r (seq_of rs' last)
  end.

Definition chars (s : str) : list regex := List.map (fun c => One (Chr c)) s.

End Re.
Import Re.

(** ** The parser *)

(** [-?\d+\.?\d*], the pattern inside each group *)
Definition numeral_re : regex :=
  Seq (Maybe (Chr minus)) (Seq (Many1 Digit) (Seq (Maybe (Chr dot)) (Many Digit))).

(** The pattern given to [re.match]: [# move, *(N), *(N), *(N)], each
    [N] being the numeral pattern above. *)
Definition move_re : regex :=
  seq_of (chars (lit "# move,") ++
          [Many (Chr space); Group numeral_re; One (Chr comma);
           Many (Chr space); Group numeral_re; One (Chr comma);
           Many (Chr space)])
         (Group numeral_re).

Definition move_match (s : str) : option (list str * str) := rmatch move_re s.

(** *** Exceptions and results *)

Inductive exn : Type :=
| ValueError
| OverflowError
| UnicodeDecodeError
| IsADirectoryError
| PermissionError.

(** What [except ValueError] catches: [UnicodeDecodeError] is a subclass
    of [ValueError]. *)
Definition is_value_error (e : exn) : bool :=
  match e with
  | ValueError | UnicodeDecodeError => true
  | OverflowError | IsADirectoryError | PermissionError => false
  end.

Inductive result (A : Type) : Type :=
| Ok (a : A)
| Raise (e : exn).
Arguments Ok {A} a.
Arguments Raise {A} e.

Definition bind {A B : Type} (r : result A) (f : A -> result B) : result B :=
  match r with
  | Ok a => f a
  | Raise e => Raise e
  end.

Notation "x <- r ;; k" := (bind r (fun x => k))
  (at level 61, r at next level, right associativity).

(** *** [float] and [int]

    A double is kept exactly, as sign, integer significand and binary
    exponent: [Finite neg m e] stands for (+/-) m * 2^e. *)

Module Num.

Inductive pyfloat : Type :=
| Finite (neg : bool) (m e : Z)
| Infinite (neg : bool).

(** Round [p / q] to an integer, ties to even ([0 <= p], [0 < q]). *)
Definition round_half_even (p q : Z) : Z :=
  let d := p / q in
  match (2 * (p mod q) ?= q) with
  | Lt => d
  | Gt => d + 1
  | Eq => if Z.even d then d else d + 1
  end.

(** The binary order of magnitude of [p / q]: the [b] with
    [2^b <= p / q < 2^(b+1)] ([0 < p], [0 < q]). *)
Definition binade (p q : Z) : Z :=
  let l := Z.log2 p - Z.log2 q in
  let above := if 0 <=? l then q * 2 ^ l <=? p else q <=? p * 2 ^ (- l) in
  if above then l else l - 1.

(** The double nearest to (+/-) [p / q], as correctly rounded decimal
    to binary conversion gives it: 53 significant bits, exponent not
    below that of the subnormals, ties to even, and infinity from
    [2^1024] on. *)
Definition nearest_double (neg : bool) (p q : Z) : pyfloat :=
  if p =? 0 then Finite neg 0 0
  else
    let e := Z.max (binade p q - 52) (-1074) in
    let m := if 0 <=? e then round_half_even p (q * 2 ^ e)
             else round_half_even (p * 2 ^ (- e)) q in
    if (0 <=? e) && (2 ^ 1024 <=? m * 2 ^ e) then Infinite neg
    else Finite neg m e.

(** The digits at the head of [s]: their value appended to [acc], how
    many there are, and the rest of [s]. *)
Fixpoint take_digits (s : str) (acc : Z) (n : nat) : Z * nat * str :=
  match s with
  | c :: s' =>
      match decimal c with
      | Some d => take_digits s' (acc * 10 + d) (S n)
      | None => (acc, n, s)
      end
  | [] => (acc, n, [])
  end.

Definition take_sign (s : str) : bool * str :=
  match s with
  | c :: s' =>
      if N.eqb c minus then (true, s')
      else if N.eqb c 43 then (false, s')
      else (false, s)
  | [] => (false, [])
  end.

Definition take_dot (s : str) : str :=
  match s with
  | c :: s' => if N.eqb c dot then s' else s
  | [] => []
  end.

(** [float(s)] on decimal numerals: blanks around, a sign, digits with
    at most one point and at least one digit.  Every other text is
    answered with [ValueError] here; the interpreter accepts a few more
    spellings (exponents, [inf], [nan], underscores between digits), none
    of which can be built from a sign, digits and a point. *)
Definition py_float (s : str) : result pyfloat :=
  let '(neg, s1) := take_sign (strip s) in
  let '(i, n1, s2) := take_digits s1 0 0 in
  let '(n, n2, s3) := take_digits (take_dot s2) i 0 in
  match s3 with
  | [] =>
      if Nat.eqb (n1 + n2) 0 then Raise ValueError
      else Ok (nearest_double neg n (10 ^ Z.of_nat n2))
  | _ :: _ => Raise ValueError
  end.

(** [int(f)] of a float: the integer part, towards zero. *)
Definition py_int (f : pyfloat) : result Z :=
  match f with
  | Infinite _ => Raise OverflowError
  | Finite neg m e =>
      let a := if 0 <=? e then m * 2 ^ e else m / 2 ^ (- e) in
      Ok (if neg then - a else a)
  end.

End Num.
Import Num.

(** *** [parse_commands_from_file] *)

Inductive instruction : Type :=
| Move (x y z : Z)
| Command (value : str).

(** [int(float(move_match.group(i)))] *)
Definition coordinate (caps : list str) (i : nat) : result Z :=
  f <- py_float (nth (i - 1) caps []) ;; py_int f.

Definition warning_text (line_number : Z) (line_content : str) : str :=
  lit "Warning: Invalid coordinates in #move line at file line "
  ++ str_of_int line_number ++ lit ": " ++ line_content.

(** What one turn of the loop over the lines does. *)
Inductive line_effect : Type :=
| Skip
| Append (i : instruction)
| Warn (message : str)
| Abort (e : exn).

Definition parse_line (line_number : Z) (line : str) : line_effect :=
  let line_content := strip line in
  if match line_content with [] => true | _ => false end
     || startswith (lit "# comment") line_content
  then Skip
  else
    match move_match line_content with
    | Some (caps, _) =>
        match (x <- coordinate caps 1 ;;
               y <- coordinate caps 2 ;;
               z <- coordinate caps 3 ;;
               Ok (Move x y z)) with
        | Ok i => Append i
        | Raise e =>
            if is_value_error e
            then Warn (warning_text line_number line_content)
            else Abort e
        end
    | None => Append (Command line_content)
    end.

(** The loop: [instructions] and the printed lines [out] so far; an
    exception that is not caught ends the loop with what was printed. *)
Fixpoint parse_lines (line_number : Z) (lines : list str)
         (instructions : list instruction) (out : list str)
  : list str * result (list instruction) :=
  match lines with
  | [] => (out, Ok instructions)
  | line :: rest =>
      match parse_line line_number line with
      | Skip => parse_lines (line_number + 1) rest instructions out
      | Append i =>
          parse_lines (line_number + 1) rest (instructions ++ [i]) out
      | Warn w => parse_lines (line_number + 1) rest instructions (out ++ [w])
      | Abort e => (out, Raise e)
      end
  end.

(** What the file at the path is to [open] and to the iteration over
    its lines:  [NotFound] when [open] raises [FileNotFoundError];
    [OpenFails e] when [open] raises another exception (a directory, no
    permission);  [Opened lines decodes] when the file opens and the
    iteration yields [lines], each with its line end, and then either ends
    ([decodes = true]) or raises [UnicodeDecodeError] on bytes that are not
    UTF-8 ([decodes = false]). *)
Inductive source : Type :=
| NotFound
| OpenFails (e : exn)
| Opened (lines : list str) (decodes : bool).

Definition not_found_text (filepath : str) : str :=
  lit "Error: Command file '" ++ filepath ++ lit "' not found.".

(** Returns what was printed and either the instructions, [None], or
    the exception that escaped: only [FileNotFoundError] is caught around
    [open] and the loop. *)
Definition parse_commands_from_file (file : source) (filepath : str)
  : list str * result (option (list instruction)) :=
  match file with
  | NotFound => ([not_found_text filepath], Ok None)
  | OpenFails e => ([], Raise e)
  | Opened lines decodes =>
      let '(out, r) := parse_lines 1 lines [] [] in
      (out, i <- r ;; if decodes then Ok (Some i) else Raise UnicodeDecodeError)
  end.

(** ** The placement loop *)

(** [escape_command_string] *)
Definition escape_command_string (cmd_str : str) : str :=
  replace1 quote [backslash; quote]
    (replace1 backslash [backslash; backslash] cmd_str).

(** The settings at the head of the script. *)
Record settings : Type := {
  COMMAND_FILE_PATH : str;
  INITIAL_BASE_X : Z;
  INITIAL_BASE_Y : Z;
  INITIAL_BASE_Z : Z;
  COMMAND_BLOCK_FACING : str;
  COMMAND_BLOCK_CONDITION : str;
  CHAIN_COMMAND_BLOCK_AUTO : str;
  MINECRAFT_ACTIVATE_WAIT : Z
}.

Definition script_settings : settings := {|
  COMMAND_FILE_PATH := lit "cb.mcfunction";
  INITIAL_BASE_X := 0;
  INITIAL_BASE_Y := 60;
  INITIAL_BASE_Z := 0;
  COMMAND_BLOCK_FACING := lit "up";
  COMMAND_BLOCK_CONDITION := lit "false";
  CHAIN_COMMAND_BLOCK_AUTO := lit "true";
  MINECRAFT_ACTIVATE_WAIT := 3
|}.

(** What the script does to the outside: a line printed, or a command
    handed to [send_minecraft_command] (the clicks, keystrokes and delays
    of that function are not spelled out). *)
Inductive event : Type :=
| Print (line : str)
| Send (command_text : str).

(** The variables of the loop. *)
Record state : Type := {
  current_base_x : Z;
  current_base_y : Z;
  current_base_z : Z;
  block_counter_overall : Z;
  block_counter_current_stack : Z
}.

Definition newline : char := 10%N.

Section Loop.
Variable cfg : settings.

Definition initial_state : state := {|
  current_base_x := INITIAL_BASE_X cfg;
  current_base_y := INITIAL_BASE_Y cfg;
  current_base_z := INITIAL_BASE_Z cfg;
  block_counter_overall := 0;
  block_counter_current_stack := 0
|}.

Definition fill_command (move_x move_y move_z : Z) : str :=
  lit "fill " ++ str_of_int move_x ++ lit " " ++ str_of_int move_y
  ++ lit " " ++ str_of_int move_z ++ lit " " ++ str_of_int move_x
  ++ lit " 128 " ++ str_of_int move_z ++ lit " minecraft:air replace".

Definition skipping_text (move_x move_y move_z : Z) : str :=
  lit "Skipping area clearing for move to (" ++ str_of_int move_x
  ++ lit ", " ++ str_of_int move_y ++ lit ", " ++ str_of_int move_z
  ++ lit ") as Y (" ++ str_of_int move_y ++ lit ") is above 128.".

Definition moving_text (x y z : Z) : str :=
  newline :: lit "Moving: New base coordinates for command blocks ("
  ++ str_of_int x ++ lit ", Y from " ++ str_of_int y ++ lit ", "
  ++ str_of_int z ++ lit ").".

Definition block_text (overall stack x y z : Z) (cmd : str) : str :=
  lit "Block " ++ str_of_int overall ++ lit " (current stack "
  ++ str_of_int stack ++ lit ") @ (" ++ str_of_int x ++ lit ", "
  ++ str_of_int y ++ lit ", " ++ str_of_int z ++ lit "): "
  ++ quote :: firstn 60 cmd ++ lit "..." ++ [quote].

Definition chain_auto_on : bool :=
  str_eqb (lower (CHAIN_COMMAND_BLOCK_AUTO cfg)) (lit "true").

Definition repeating_text : str :=
  lit " -> Type: Repeating (Facing:" ++ COMMAND_BLOCK_FACING cfg
  ++ lit ", Conditional:" ++ COMMAND_BLOCK_CONDITION cfg
  ++ lit ", Execution:Needs Power)".

Definition chain_text : str :=
  lit " -> Type: Chain (Facing:" ++ COMMAND_BLOCK_FACING cfg
  ++ lit ", Conditional:" ++ COMMAND_BLOCK_CONDITION cfg
  ++ lit ", Execution:"
  ++ (if chain_auto_on then lit "Always Active" else lit "Needs Power")
  ++ lit ")".

Definition block_states_str : str :=
  lit "[facing=" ++ lower (COMMAND_BLOCK_FACING cfg)
  ++ lit ",conditional=" ++ lower (COMMAND_BLOCK_CONDITION cfg) ++ lit "]".

Definition block_id_str (stack : Z) : str :=
  if stack =? 1 then lit "minecraft:repeating_command_block"
  else lit "minecraft:chain_command_block".

Definition auto_setting_str (stack : Z) : str :=
  if stack =? 1 then lit "0b"
  else if chain_auto_on then lit "1b" else lit "0b".

Definition nbt_data_str (escaped_cmd_for_nbt auto : str) : str :=
  lit "{Command:" ++ quote :: escaped_cmd_for_nbt ++ quote :: lit ",auto:"
  ++ auto ++ lit "}".

Definition minecraft_setblock_cmd
           (target_x target_y target_z : Z) (block_id nbt : str) : str :=
  lit "setblock " ++ str_of_int target_x ++ lit " " ++ str_of_int target_y
  ++ lit " " ++ str_of_int target_z ++ lit " "
  ++ block_id ++ block_states_str ++ nbt ++ lit " replace".

(** One turn of the loop over the instructions. *)
Definition step (st : state) (i : instruction) : list event * state :=
  match i with
  | Move move_x move_y move_z =>
      let clearing :=
        if move_y <=? 128 then
          [Print (lit "Clearing area with command: "
                  ++ fill_command move_x move_y move_z);
           Send (fill_command move_x move_y move_z)]
        else [Print (skipping_text move_x move_y move_z)] in
      (clearing ++ [Print (moving_text move_x move_y move_z)],
       {| current_base_x := move_x;
          current_base_y := move_y;
          current_base_z := move_z;
          block_counter_overall := block_counter_overall st;
          block_counter_current_stack := 0 |})
  | Command cmd_to_set_in_block =>
      let target_x := current_base_x st in
      let target_y := current_base_y st in
      let target_z := current_base_z st in
      let overall := block_counter_overall st + 1 in
      let stack := block_counter_current_stack st + 1 in
      let escaped_cmd_for_nbt := escape_command_string cmd_to_set_in_block in
      ([Print (block_text overall stack target_x target_y target_z
                          cmd_to_set_in_block);
        Print (if stack =? 1 then repeating_text else chain_text);
        Send (minecraft_setblock_cmd target_x target_y target_z
                (block_id_str stack)
                (nbt_data_str escaped_cmd_for_nbt (auto_setting_str stack)))],
       {| current_base_x := current_base_x st;
          current_base_y := current_base_y st + 1;
          current_base_z := current_base_z st;
          block_counter_overall := overall;
          block_counter_current_stack := stack |})
  end.

Fixpoint process (st : state) (instructions : list instruction)
  : list event * state :=
  match instructions with
  | [] => ([], st)
  | i :: rest =>
      let '(ev, st1) := step st i in
      let '(evs, st2) := process st1 rest in
      (ev ++ evs, st2)
  end.

Definition banner : list event :=
  [Print (lit "Minecraft Automatic Command Block Placement Script (Repeating: Needs Power / Chain: Always Active, uses pynput)");
   Print (lit "Chat open action is set to MOUSE RIGHT CLICK.");
   Print (lit "Bring the Minecraft window to the foreground within "
          ++ str_of_int (MINECRAFT_ACTIVATE_WAIT cfg) ++ lit " seconds,");
   Print (lit "and ensure it's ready for command input.");
   Print (lit "The script will then start processing automatically.");
   Print (lit "Command file: " ++ COMMAND_FILE_PATH cfg)].

Definition starting_text : list event :=
  [Print (lit "Starting with initial base coordinates: ("
          ++ str_of_int (INITIAL_BASE_X cfg) ++ lit ", Y from "
          ++ str_of_int (INITIAL_BASE_Y cfg) ++ lit ", "
          ++ str_of_int (INITIAL_BASE_Z cfg) ++ lit ").");
   Print (lit "Coordinates will be changed by #move commands in the file.")].

(** How the script ends: by [exit()], by running to its last line, or
    with an exception nobody caught. *)
Inductive ending : Type :=
| Exited
| Finished
| Uncaught (e : exn).

(** The body under [if __name__ == "__main__"], when the injector
    raises nothing and the user does not interrupt. *)
Definition main (file : source) : list event * ending :=
  let '(out, parsed) := parse_commands_from_file file (COMMAND_FILE_PATH cfg) in
  let head := banner ++ List.map Print out in
  match parsed with
  | Raise e => (head, Uncaught e)
  | Ok None => (head, Exited)
  | Ok (Some []) =>
      (head ++ [Print (lit "No instructions to process were found in the file.")],
       Exited)
  | Ok (Some (first :: rest)) =>
      let intro := match first with Move _ _ _ => [] | Command _ => starting_text end in
      let '(evs, _) := process initial_state (first :: rest) in
      (head ++ intro ++ evs
       ++ [Print (newline :: lit "All instructions have been processed.");
           Print (lit "Exiting script.")],
       Finished)
  end.
End Loop.

(** The commands handed to the injector, in order. *)
Fixpoint sent (evs : list event) : list str :=
  match evs with
  | [] => []
  | Send c :: evs' => c :: sent evs'
  | Print _ :: evs' => sent evs'
  end.

(** ** [send_minecraft_command]

    What the script asks of the mouse and the keyboard for one command,
    in order.  The waits are named after their place in the function; the
    controllers themselves are outside the script. *)

Inductive pause : Type :=
| ChatOpenWait          (* time.sleep(0.4) *)
| KeyWait               (* time.sleep(0.005) *)
| TypedWait             (* time.sleep(0.1) *)
| CommandExecWait.      (* time.sleep(COMMAND_EXEC_WAIT), 0.3 *)

Inductive device_event : Type :=
| MousePressRight
| MouseReleaseRight
| KeyType (c : char)
| KeyPressEnter
| KeyReleaseEnter
| Sleep (p : pause).

Definition send_minecraft_command (command_text : str) : list device_event :=
  [MousePressRight; MouseReleaseRight; Sleep ChatOpenWait]
  ++ flat_map (fun char_to_type => [KeyType char_to_type; Sleep KeyWait])
              command_text
  ++ [Sleep TypedWait; KeyPressEnter; KeyReleaseEnter; Sleep CommandExecWait].

(** The literal of each wait, in milliseconds. *)
Definition milliseconds (p : pause) : Z :=
  match p with
  | ChatOpenWait => 400
  | KeyWait => 5
  | TypedWait => 100
  | CommandExecWait => 300
  end.


(** ** Vocabulary of the statements *)

(** The text left once the longest run of [a] is taken off. *)
Fixpoint skip (a : atom) (s : str) : str :=
  match s with
  | c :: s' => if accepts a c then skip a s' else s
  | [] => []
  end.

(** The text left once one [a], if present, is taken off. *)
Definition skip1 (a : atom) (s : str) : str :=
  match s with
  | c :: s' => if accepts a c then s' else s
  | [] => []
  end.

Definition expect (c : char) (s : str) : option str :=
  match s with
  | x :: s' => if N.eqb x c then Some s' else None
  | [] => None
  end.

Fixpoint expect_all (p s : str) : option str :=
  match p with
  | [] => Some s
  | c :: p' =>
      match expect c s with
      | Some s' => expect_all p' s'
      | None => None
      end
  end.

(** A numeral read from left to right without ever going back: an
    optional minus, the longest run of digits (at least one), an optional
    point, the longest run of digits.  Gives the numeral and the rest. *)
Definition scan_numeral (s : str) : option (str * str) :=
  match skip1 (Chr minus) s with
  | c :: s1 =>
      if isdecimal c then
        let r := skip Digit (skip1 (Chr dot) (skip Digit s1)) in
        Some (firstn (length s - length r)%nat s, r)
      else None
  | [] => None
  end.

(** The move pattern read from left to right without ever going back. *)
Definition scan_move (s : str) : option (list str * str) :=
  match expect_all (lit "# move,") s with
  | None => None
  | Some s0 =>
      match scan_numeral (skip (Chr space) s0) with
      | None => None
      | Some (g1, r1) =>
          match expect comma r1 with
          | None => None
          | Some s1 =>
              match scan_numeral (skip (Chr space) s1) with
              | None => None
              | Some (g2, r2) =>
                  match expect comma r2 with
                  | None => None
                  | Some s2 =>
                      match scan_numeral (skip (Chr space) s2) with
                      | None => None
                      | Some (g3, r3) => Some ([g1; g2; g3], r3)
                      end
                  end
              end
          end
      end
  end.

Definition all_decimal (s : str) : Prop := Forall (fun c => isdecimal c = true) s.

(** Optional minus, digits, optional point, optional digits. *)
Definition is_numeral (g : str) : Prop :=
  exists sg ds1 pt ds2,
    g = sg ++ ds1 ++ pt ++ ds2
    /\ (sg = [] \/ sg = [minus])
    /\ ds1 <> [] /\ all_decimal ds1
    /\ (pt = [] \/ pt = [dot])
    /\ all_decimal ds2.

(** Trailing text that would lengthen the numeral before it. *)
Definition extends_numeral (t : str) : bool :=
  match t with
  | c :: _ => isdecimal c || N.eqb c dot
  | [] => false
  end.

(** A line the parser passes over: blank, or starting with [# comment]. *)
Definition blank_or_comment (line : str) : bool :=
  match strip line with
  | [] => true
  | s => startswith (lit "# comment") s
  end.

(** [x] is the integer part, towards zero, of the double [f]: it has
    the sign of [f], and [|x| <= m * 2^e < |x| + 1], written without
    fractions. *)
Definition integer_part_of (f : pyfloat) (x : Z) : Prop :=
  match f with
  | Infinite _ => False
  | Finite neg m e =>
      (if neg then x <= 0 else 0 <= x)
      /\ Z.abs x * 2 ^ Z.max 0 (- e) <= m * 2 ^ Z.max 0 e
      /\ m * 2 ^ Z.max 0 e < (Z.abs x + 1) * 2 ^ Z.max 0 (- e)
  end.

(** How many [Command]s have come since the last [Move] of [pre] (or
    since its start): the [Command]s at the head of [pre] read backwards. *)
Fixpoint leading_commands (l : list instruction) : Z :=
  match l with
  | Command _ :: rest => 1 + leading_commands rest
  | _ => 0
  end.

Definition commands_since_move (pre : list instruction) : Z :=
  leading_commands (rev pre).

(** The escaping, one character at a time. *)
Definition escape_char (c : char) : str :=
  if N.eqb c backslash then [backslash; backslash]
  else if N.eqb c quote then [backslash; quote]
  else [c].

(** Reading back a quoted text, after its opening quote: a backslash
    gives the character after it, a bare quote closes.  Returns the text
    and what follows the closing quote. *)
Fixpoint read_quoted (s : str) : option (str * str) :=
  match s with
  | [] => None
  | c :: s' =>
      if N.eqb c quote then Some ([], s')
      else if N.eqb c backslash then
        match s' with
        | [] => None
        | d :: s'' =>
            match read_quoted s'' with
            | Some (t, rest) => Some (d :: t, rest)
            | None => None
            end
        end
      else
        match read_quoted s' with
        | Some (t, rest) => Some (c :: t, rest)
        | None => None
        end
  end.

(** The [Command] field read back from a data block. *)
Definition read_command_field (nbt : str) : option (str * str) :=
  match expect_all (lit "{Command:" ++ [quote]) nbt with
  | Some s => read_quoted s
  | None => None
  end.

(** The chain-auto setting reads true: it is the word [true] written
    in any mix of lower and upper case. *)
Definition spells_true (flag : str) : bool :=
  match flag with
  | [t; r; u; e] =>
      (N.eqb t 116 || N.eqb t 84) && (N.eqb r 114 || N.eqb r 82)
      && (N.eqb u 117 || N.eqb u 85) && (N.eqb e 101 || N.eqb e 69)
  | _ => false
  end.

(** The settings of the script with another chain-auto setting. *)
Definition with_chain_auto (flag : str) : settings := {|
  COMMAND_FILE_PATH := COMMAND_FILE_PATH script_settings;
  INITIAL_BASE_X := INITIAL_BASE_X script_settings;
  INITIAL_BASE_Y := INITIAL_BASE_Y script_settings;
  INITIAL_BASE_Z := INITIAL_BASE_Z script_settings;
  COMMAND_BLOCK_FACING := COMMAND_BLOCK_FACING script_settings;
  COMMAND_BLOCK_CONDITION := COMMAND_BLOCK_CONDITION script_settings;
  CHAIN_COMMAND_BLOCK_AUTO := flag;
  MINECRAFT_ACTIVATE_WAIT := MINECRAFT_ACTIVATE_WAIT script_settings
|}.

Definition ascii_settings (cfg : settings) : Prop :=
  is_ascii (COMMAND_BLOCK_FACING cfg) = true
  /\ is_ascii (COMMAND_BLOCK_CONDITION cfg) = true
  /\ is_ascii (CHAIN_COMMAND_BLOCK_AUTO cfg) = true.

Definition no_space (s : str) : bool := negb (existsb isspace s).

(** A line of [# move, 1] followed by [zeros] zeros and [, 0, 0]. *)
Definition huge_move (zeros : nat) : str :=
  lit "# move, 1" ++ repeat 48%N zeros ++ lit ", 0, 0".

(** A continuation is safe after a numeral when it never fails, or when
    it fails on any text that starts with a digit or a point. *)
Definition tail_ok {R : Type} (k : str -> list str -> option R) : Prop :=
  (forall s caps, k s caps <> None)
  \/ (forall c t caps, isdecimal c = true \/ c = dot -> k (c :: t) caps = None).

(** The longest run of [a] at the head of a text. *)
Fixpoint taken (a : atom) (s : str) : str :=
  match s with
  | c :: s' => if accepts a c then c :: taken a s' else []
  | [] => []
  end.

(** The double has a significand that is not negative. *)
Definition well_signed (f : pyfloat) : Prop :=
  match f with
  | Finite _ m _ => 0 <= m
  | Infinite _ => True
  end.

(** The number a run of digits writes, continuing from [acc]. *)
Definition digit_of (c : char) : Z :=
  match decimal c with Some d => d | None => 0 end.

Definition digits_from (acc : Z) (ds : str) : Z :=
  fold_left (fun a c => a * 10 + digit_of c) ds acc.

Definition digits_value (ds : str) : Z := digits_from 0 ds.

(** The commands a trace of device events enters: the characters typed
    since the last Enter, closed by each press of Enter. *)
Fixpoint typed_commands_from (cur : str) (evs : list device_event)
  : list str :=
  match evs with
  | [] => []
  | KeyType c :: r => typed_commands_from (cur ++ [c]) r
  | KeyPressEnter :: r => cur :: typed_commands_from [] r
  | _ :: r => typed_commands_from cur r
  end.

Definition typed_commands (evs : list device_event) : list str :=
  typed_commands_from [] evs.

Fixpoint total_wait (evs : list device_event) : Z :=
  match evs with
  | [] => 0
  | Sleep p :: r => milliseconds p + total_wait r
  | _ :: r => total_wait r
  end.


(** The instruction a line contributes, if any, and whether it stops
    the parser. *)
Definition line_instruction (line : str) : list instruction :=
  match parse_line 1 line with
  | Append i => [i]
  | _ => []
  end.

Definition line_aborts (line : str) : bool :=
  match parse_line 1 line with
  | Abort _ => true
  | _ => false
  end.

(** What holds of every instruction the parser returns: the text of a
    [Command] is trimmed, not empty, no comment and no move line. *)
Definition clean_instruction (i : instruction) : Prop :=
  match i with
  | Move _ _ _ => True
  | Command t =>
      t <> [] /\ strip t = t
      /\ startswith (lit "# comment") t = false
      /\ move_match t = None
  end.

Definition is_command (i : instruction) : bool :=
  match i with Command _ => true | Move _ _ _ => false end.

Definition is_clearing_move (i : instruction) : bool :=
  match i with Move _ y _ => y <=? 128 | Command _ => false end.

(** The placements of a stack started at [(x, y, z)]: the [i]-th text
    goes to height [y + i], the first as the repeating block. *)
Fixpoint column (cfg : settings) (x y z : Z) (stack : Z) (texts : list str)
  : list str :=
  match texts with
  | [] => []
  | t :: ts =>
      minecraft_setblock_cmd cfg x y z (block_id_str (stack + 1))
        (nbt_data_str (escape_command_string t)
                      (auto_setting_str cfg (stack + 1)))
      :: column cfg x (y + 1) z (stack + 1) ts
  end.

Definition is_special (c : char) : bool := N.eqb c quote || N.eqb c backslash.

Definition all_spaces (sp : str) : Prop := Forall (fun c => c = space) sp.

(** A numeral by its parts: sign, digits before the point, whether the
    point is written, digits after it. *)
Record numeral_parts : Type := {
  negative : bool;
  whole : str;
  pointed : bool;
  fraction : str
}.

Definition numeral_text (a : numeral_parts) : str :=
  (if negative a then [minus] else [])
  ++ whole a ++ (if pointed a then [dot] else []) ++ fraction a.

Definition short_numeral (a : numeral_parts) : Prop :=
  whole a <> [] /\ all_decimal (whole a) /\ all_decimal (fraction a)
  /\ (pointed a = false -> fraction a = [])
  /\ (length (whole a) + length (fraction a) <= 15)%nat.

(** The integer written before the point, with the sign. *)
Definition whole_value (a : numeral_parts) : Z :=
  if negative a then - digits_value (whole a) else digits_value (whole a).

(** A move line written out. *)
Definition move_line (sp0 g1 sp1 g2 sp2 g3 : str) : str :=
  lit "# move," ++ sp0 ++ g1 ++ comma :: sp1 ++ g2 ++ comma :: sp2 ++ g3.

(** * Properties *)

(** ** The placement loop *)

Lemma sent_app evs1 evs2 : sent (evs1 ++ evs2) = sent evs1 ++ sent evs2.
Proof.
  induction evs1 as [|[l|c] evs1 IH]; simpl; [reflexivity|assumption|].
  now rewrite IH.
Qed.

Lemma process_app cfg st l1 l2 :
  process cfg st (l1 ++ l2) =
  (fst (process cfg st l1) ++ fst (process cfg (snd (process cfg st l1)) l2),
   snd (process cfg (snd (process cfg st l1)) l2)).
Proof.
  revert st. induction l1 as [|i l1 IH]; intro st; simpl.
  - now destruct (process cfg st l2).
  - destruct (step cfg st i) as [ev st1]. rewrite IH.
    destruct (process cfg st1 l1) as [evs st2]; simpl.
    now rewrite app_assoc.
Qed.

Lemma process_cons cfg st i rest :
  process cfg st (i :: rest) =
  (fst (step cfg st i) ++ fst (process cfg (snd (step cfg st i)) rest),
   snd (process cfg (snd (step cfg st i)) rest)).
Proof.
  simpl. destruct (step cfg st i) as [ev st1]; simpl.
  now destruct (process cfg st1 rest).
Qed.

Lemma stack_counter cfg pre :
  block_counter_current_stack (snd (process cfg (initial_state cfg) pre))
  = commands_since_move pre.
Proof.
  unfold commands_since_move.
  induction pre as [|i pre IH] using rev_ind; [reflexivity|].
  rewrite process_app, rev_app_distr. cbn [snd rev app].
  rewrite process_cons. cbn [snd process].
  destruct i as [x y z|c]; cbn [step snd block_counter_current_stack leading_commands].
  - reflexivity.
  - rewrite IH. lia.
Qed.

Lemma lower_has_no_capital s :
  forallb (fun c => negb ((65 <=? c) && (c <=? 90))%N) (lower s) = true.
Proof.
  induction s as [|c s IH]; [reflexivity|].
  cbn [lower List.map forallb]. fold (lower s). rewrite IH, andb_true_r.
  unfold lower_char.
  destruct ((65 <=? c) && (c <=? 90))%N eqn:E.
  - apply andb_true_iff in E as [E1 E2].
    apply N.leb_le in E1, E2.
    apply negb_true_iff, andb_false_iff. right. apply N.leb_gt. lia.
  - now rewrite E.
Qed.

(** C6. A [Move] always relocates the origin to its coordinates and
    resets the per-stack counter to 0 (the overall counter is kept); it
    sends the clearing command from (x,y,z) to (x,128,z) exactly when
    [y <= 128], and sends nothing when [y] is above 128. *)
Theorem move_clears_up_to_128_and_relocates cfg st x y z :
  sent (fst (step cfg st (Move x y z)))
  = (if y <=? 128 then
       [lit "fill " ++ str_of_int x ++ lit " " ++ str_of_int y ++ lit " "
        ++ str_of_int z ++ lit " " ++ str_of_int x ++ lit " 128 "
        ++ str_of_int z ++ lit " minecraft:air replace"]
     else [])
  /\ current_base_x (snd (step cfg st (Move x y z))) = x
  /\ current_base_y (snd (step cfg st (Move x y z))) = y
  /\ current_base_z (snd (step cfg st (Move x y z))) = z
  /\ block_counter_current_stack (snd (step cfg st (Move x y z))) = 0
  /\ block_counter_overall (snd (step cfg st (Move x y z)))
     = block_counter_overall st.
Proof.
  cbn [step fst snd current_base_x current_base_y current_base_z
       block_counter_current_stack block_counter_overall].
  repeat split.
  rewrite sent_app. destruct (y <=? 128); reflexivity.
Qed.

Example move_to_200_clears_nothing :
  sent (fst (step script_settings (initial_state script_settings)
                  (Move 7 200 (-3)))) = []
  /\ snd (step script_settings (initial_state script_settings)
               (Move 7 200 (-3)))
     = {| current_base_x := 7; current_base_y := 200; current_base_z := -3;
          block_counter_overall := 0; block_counter_current_stack := 0 |}.
Proof. split; reflexivity. Qed.

(** C4. The run [Move(0,60,0); Command "say hi"; Command "say bye"]
    under the settings of the script sends three commands: one clearing
    command for (0,60,0)-(0,128,0), then a placement at (0,60,0) and a
    placement at (0,61,0).  In general a [Command] sends one placement at
    the current origin and raises the origin's Y by 1. *)
Theorem say_hi_say_bye_run :
  sent (fst (process script_settings (initial_state script_settings)
               [Move 0 60 0; Command (lit "say hi"); Command (lit "say bye")]))
  = [ lit "fill 0 60 0 0 128 0 minecraft:air replace";
      lit "setblock 0 60 0 minecraft:repeating_command_block[facing=up,conditional=false]{Command:"
      ++ quote :: lit "say hi" ++ quote :: lit ",auto:0b} replace";
      lit "setblock 0 61 0 minecraft:chain_command_block[facing=up,conditional=false]{Command:"
      ++ quote :: lit "say bye" ++ quote :: lit ",auto:1b} replace" ]
  /\ (forall cfg st text,
        (exists block_id nbt,
            sent (fst (step cfg st (Command text)))
            = [minecraft_setblock_cmd cfg (current_base_x st)
                 (current_base_y st) (current_base_z st) block_id nbt])
        /\ current_base_x (snd (step cfg st (Command text))) = current_base_x st
        /\ current_base_y (snd (step cfg st (Command text)))
           = current_base_y st + 1
        /\ current_base_z (snd (step cfg st (Command text)))
           = current_base_z st).
Proof.
  split; [vm_compute; reflexivity|].
  intros cfg st text. cbn [step fst snd sent current_base_x current_base_y
                                current_base_z].
  repeat split. eauto.
Qed.

Lemma kind_and_auto_cases cfg stack :
  (block_id_str stack = lit "minecraft:repeating_command_block"
   \/ block_id_str stack = lit "minecraft:chain_command_block")
  /\ (auto_setting_str cfg stack = lit "0b"
      \/ auto_setting_str cfg stack = lit "1b").
Proof.
  unfold block_id_str, auto_setting_str.
  destruct (stack =? 1), (chain_auto_on cfg); auto.
Qed.

(** C8. The placement command is, separated by single spaces:
    [setblock], the target X, Y, Z, then one token made of the block id
    (one of two, by kind), the state block [[facing=..,conditional=..]] in
    lower case and the data block holding the escaped text and
    [auto:0b] or [auto:1b], then [replace]; the layout around the values
    holds no blank.  The clearing command is [fill], the three from
    coordinates, the three to coordinates, [minecraft:air], [replace].
    Settings are taken in ASCII, where [lower] is [str.lower]. *)
Theorem rendered_commands_token_order
        cfg st text x y z (Hascii : ascii_settings cfg) :
  let stack := block_counter_current_stack st + 1 in
  sent (fst (step cfg st (Command text)))
  = [join [space]
       [lit "setblock";
        str_of_int (current_base_x st);
        str_of_int (current_base_y st);
        str_of_int (current_base_z st);
        block_id_str stack
        ++ lit "[facing=" ++ lower (COMMAND_BLOCK_FACING cfg)
        ++ lit ",conditional=" ++ lower (COMMAND_BLOCK_CONDITION cfg)
        ++ lit "]"
        ++ lit "{Command:" ++ [quote] ++ escape_command_string text
        ++ [quote] ++ lit ",auto:" ++ auto_setting_str cfg stack ++ lit "}";
        lit "replace"]]
  /\ (block_id_str stack = lit "minecraft:repeating_command_block"
      \/ block_id_str stack = lit "minecraft:chain_command_block")
  /\ (auto_setting_str cfg stack = lit "0b"
      \/ auto_setting_str cfg stack = lit "1b")
  /\ no_space (block_id_str stack ++ lit "[facing=" ++ lit ",conditional="
               ++ lit "]" ++ lit "{Command:" ++ [quote] ++ [quote]
               ++ lit ",auto:" ++ auto_setting_str cfg stack ++ lit "}") = true
  /\ forallb (fun c => negb ((65 <=? c) && (c <=? 90))%N)
             (lower (COMMAND_BLOCK_FACING cfg)
              ++ lower (COMMAND_BLOCK_CONDITION cfg)) = true
  /\ sent (fst (step cfg st (Move x y z)))
     = (if y <=? 128 then
          [join [space]
             [lit "fill"; str_of_int x; str_of_int y; str_of_int z;
              str_of_int x; lit "128"; str_of_int z;
              lit "minecraft:air"; lit "replace"]]
        else []).
Proof.
  intro stack.
  destruct (kind_and_auto_cases cfg stack) as [Hid Hauto].
  repeat split; try assumption.
  - cbn [step fst sent]. f_equal.
    unfold minecraft_setblock_cmd, nbt_data_str, block_states_str.
    fold stack.
    generalize (str_of_int (current_base_x st)) (str_of_int (current_base_y st))
               (str_of_int (current_base_z st)) (block_id_str stack)
               (auto_setting_str cfg stack) (escape_command_string text)
               (lower (COMMAND_BLOCK_FACING cfg))
               (lower (COMMAND_BLOCK_CONDITION cfg)).
    intros. cbn [join].
    repeat (rewrite <- ?app_assoc; cbn [app]).
    change (lit "setblock ") with (lit "setblock" ++ [space]).
    change (lit " replace") with (space :: lit "replace").
    change (lit " ") with [space].
    repeat (rewrite <- ?app_assoc; cbn [app]).
    reflexivity.
  - destruct Hid as [-> | ->], Hauto as [-> | ->]; reflexivity.
  - rewrite forallb_app, !lower_has_no_capital. reflexivity.
  - cbn [step fst]. rewrite sent_app.
    destruct (y <=? 128); reflexivity.
Qed.

Lemma script_settings_ascii : ascii_settings script_settings.
Proof. repeat split. Defined.

Lemma rendered_commands_token_order_witness :
  ascii_settings script_settings
  /\ sent (fst (step script_settings (initial_state script_settings)
                     (Move 1 2 3)))
     = [lit "fill 1 2 3 1 128 3 minecraft:air replace"].
Proof.
  split; [exact script_settings_ascii|].
  exact (proj2 (proj2 (proj2 (proj2 (proj2
    (rendered_commands_token_order script_settings
       (initial_state script_settings) (lit "say hi") 1 2 3
       script_settings_ascii)))))).
Defined.

Lemma lower_char_is c k :
  (97 <= k <= 122)%N ->
  N.eqb (lower_char c) k = N.eqb c k || N.eqb c (k - 32).
Proof.
  intro Hk. unfold lower_char.
  destruct ((65 <=? c) && (c <=? 90))%N eqn:E.
  - apply andb_true_iff in E as [E1 E2].
    apply N.leb_le in E1, E2.
    destruct (N.eqb_spec (c + 32) k), (N.eqb_spec c k), (N.eqb_spec c (k - 32));
      try reflexivity; lia.
  - apply andb_false_iff in E.
    destruct (N.eqb_spec c k), (N.eqb_spec c (k - 32)); try reflexivity.
    exfalso. destruct E as [E|E]; [apply N.leb_gt in E|apply N.leb_gt in E]; lia.
Qed.

(** The test of the script, [CHAIN_COMMAND_BLOCK_AUTO.lower() == 'true'],
    holds exactly of the sixteen spellings of [true]. *)
Lemma chain_auto_on_spells cfg :
  chain_auto_on cfg = spells_true (CHAIN_COMMAND_BLOCK_AUTO cfg).
Proof.
  unfold chain_auto_on, spells_true.
  change (lit "true") with [116; 114; 117; 101]%N.
  destruct (CHAIN_COMMAND_BLOCK_AUTO cfg) as [|a [|b [|c [|d [|x l]]]]];
    cbn [lower List.map str_eqb];
    rewrite ?andb_false_r; try reflexivity.
  rewrite !lower_char_is by lia.
  change (116 - 32)%N with 84%N. change (114 - 32)%N with 82%N.
  change (117 - 32)%N with 85%N. change (101 - 32)%N with 69%N.
  rewrite andb_true_r, !andb_assoc. reflexivity.
Qed.

Lemma str_eqb_eq a b : str_eqb a b = true <-> a = b.
Proof.
  revert b. induction a as [|x a IH]; intros [|y b]; cbn [str_eqb];
    try (split; [discriminate|discriminate]); [tauto|].
  rewrite andb_true_iff, N.eqb_eq, IH. split; [intros [-> ->]|intros [= -> ->]];
    auto.
Qed.

(** C2. In any instruction sequence, the command sent for a [Command]
    is a [repeating] block with [auto:0b] when no other [Command] has
    come since the last [Move] (or since the start), and otherwise a
    [chain] block whose [auto] is [1b] when the chain-auto setting is the
    word [true] (in any mix of cases, which is when its lower-cased text
    equals [true]) and [0b] for every other setting.  Settings are taken
    in ASCII, where [lower] is [str.lower]. *)
Theorem first_command_repeating_then_chain
        cfg pre text post (Hascii : ascii_settings cfg) :
  let st := snd (process cfg (initial_state cfg) pre) in
  let first := commands_since_move pre =? 0 in
  fst (process cfg (initial_state cfg) (pre ++ Command text :: post))
  = fst (process cfg (initial_state cfg) pre)
    ++ fst (step cfg st (Command text))
    ++ fst (process cfg (snd (step cfg st (Command text))) post)
  /\ sent (fst (step cfg st (Command text)))
     = [minecraft_setblock_cmd cfg
          (current_base_x st) (current_base_y st) (current_base_z st)
          (if first then lit "minecraft:repeating_command_block"
           else lit "minecraft:chain_command_block")
          (nbt_data_str (escape_command_string text)
             (if first then lit "0b"
              else if spells_true (CHAIN_COMMAND_BLOCK_AUTO cfg)
                   then lit "1b" else lit "0b"))]
  /\ (spells_true (CHAIN_COMMAND_BLOCK_AUTO cfg) = true
      <-> lower (CHAIN_COMMAND_BLOCK_AUTO cfg) = lit "true").
Proof.
  intros st first. split; [|split].
  - rewrite process_app, process_cons. reflexivity.
  - cbn [step fst sent]. unfold block_id_str, auto_setting_str.
    rewrite chain_auto_on_spells.
    subst st. rewrite stack_counter. fold first.
    replace (commands_since_move pre + 1 =? 1) with first; [reflexivity|].
    subst first.
    destruct (Z.eqb_spec (commands_since_move pre) 0) as [E|E].
    + rewrite E. reflexivity.
    + symmetry. apply Z.eqb_neq. lia.
  - rewrite <- chain_auto_on_spells. unfold chain_auto_on.
    apply str_eqb_eq.
Qed.

Lemma first_command_repeating_then_chain_witness :
  ascii_settings (with_chain_auto (lit "True"))
  /\ ascii_settings (with_chain_auto (lit "false"))
  /\ sent (fst (step (with_chain_auto (lit "True"))
                     (snd (process (with_chain_auto (lit "True"))
                             (initial_state (with_chain_auto (lit "True")))
                             [Move 0 60 0; Command (lit "a")]))
                     (Command (lit "b"))))
     = [lit "setblock 0 61 0 minecraft:chain_command_block[facing=up,conditional=false]{Command:"
        ++ quote :: lit "b" ++ quote :: lit ",auto:1b} replace"]
  /\ sent (fst (step (with_chain_auto (lit "false"))
                     (snd (process (with_chain_auto (lit "false"))
                             (initial_state (with_chain_auto (lit "false")))
                             [Move 0 60 0; Command (lit "a")]))
                     (Command (lit "b"))))
     = [lit "setblock 0 61 0 minecraft:chain_command_block[facing=up,conditional=false]{Command:"
        ++ quote :: lit "b" ++ quote :: lit ",auto:0b} replace"]
  /\ sent (fst (step (with_chain_auto (lit "false"))
                     (snd (process (with_chain_auto (lit "false"))
                             (initial_state (with_chain_auto (lit "false")))
                             [Command (lit "a"); Move 0 60 0]))
                     (Command (lit "b"))))
     = [lit "setblock 0 60 0 minecraft:repeating_command_block[facing=up,conditional=false]{Command:"
        ++ quote :: lit "b" ++ quote :: lit ",auto:0b} replace"].
Proof.
  assert (A1 : ascii_settings (with_chain_auto (lit "True")))
    by (repeat split).
  assert (A2 : ascii_settings (with_chain_auto (lit "false")))
    by (repeat split).
  split; [exact A1|]. split; [exact A2|].
  split; [|split].
  - rewrite (proj1 (proj2 (first_command_repeating_then_chain
                             (with_chain_auto (lit "True"))
                             [Move 0 60 0; Command (lit "a")] (lit "b") [] A1))).
    reflexivity.
  - rewrite (proj1 (proj2 (first_command_repeating_then_chain
                             (with_chain_auto (lit "false"))
                             [Move 0 60 0; Command (lit "a")] (lit "b") [] A2))).
    reflexivity.
  - rewrite (proj1 (proj2 (first_command_repeating_then_chain
                             (with_chain_auto (lit "false"))
                             [Command (lit "a"); Move 0 60 0] (lit "b") [] A2))).
    reflexivity.
Defined.

Example spellings_of_true :
  List.map spells_true
    [lit "true"; lit "TRUE"; lit "tRuE"; lit "false"; lit "1"; lit "yes";
     lit ""; lit " true"; lit "truee"]
  = [true; true; true; false; false; false; false; false; false].
Proof. reflexivity. Qed.

(** ** Escaping *)

Lemma replace1_app c b s1 s2 :
  replace1 c b (s1 ++ s2) = replace1 c b s1 ++ replace1 c b s2.
Proof. apply flat_map_app. Qed.

Lemma escape_by_character s :
  escape_command_string s = flat_map escape_char s.
Proof.
  unfold escape_command_string, replace1.
  induction s as [|c s IH]; [reflexivity|].
  cbn [flat_map]. rewrite flat_map_app. f_equal; [|exact IH].
  unfold escape_char.
  destruct (N.eqb_spec c backslash) as [->|Hb]; [reflexivity|].
  cbn [flat_map app].
  destruct (N.eqb_spec c quote); reflexivity.
Qed.

Lemma read_quoted_escaped s rest :
  read_quoted (flat_map escape_char s ++ quote :: rest) = Some (s, rest).
Proof.
  induction s as [|c s IH]; [reflexivity|].
  cbn [flat_map]. unfold escape_char at 1.
  destruct (N.eqb_spec c backslash) as [->|Hb].
  - cbn [app]. cbn [read_quoted]. rewrite IH. reflexivity.
  - destruct (N.eqb_spec c quote) as [->|Hq].
    + cbn [app]. cbn [read_quoted]. rewrite IH. reflexivity.
    + cbn [app]. cbn [read_quoted].
      destruct (N.eqb_spec c quote); [contradiction|].
      destruct (N.eqb_spec c backslash); [contradiction|].
      now rewrite IH.
Qed.

(** C3. The escaping doubles the backslashes first and then puts a
    backslash before every quote; the result is the text with each
    backslash doubled and each quote preceded by one backslash, every
    other character kept; and reading the [Command] field back from the
    rendered data block, undoing the escaping, gives the original text
    (and stops at the closing quote of the field), whatever the text. *)
Theorem escape_order_and_round_trip s auto :
  escape_command_string s
  = replace1 quote [backslash; quote]
      (replace1 backslash [backslash; backslash] s)
  /\ escape_command_string s = flat_map escape_char s
  /\ read_command_field (nbt_data_str (escape_command_string s) auto)
     = Some (s, lit ",auto:" ++ auto ++ lit "}").
Proof.
  split; [reflexivity|]. split; [apply escape_by_character|].
  unfold read_command_field, nbt_data_str.
  rewrite escape_by_character.
  change (expect_all (lit "{Command:" ++ [quote])
            (lit "{Command:" ++ quote :: flat_map escape_char s
               ++ quote :: lit ",auto:" ++ auto ++ lit "}"))
    with (Some (flat_map escape_char s
                  ++ quote :: lit ",auto:" ++ auto ++ lit "}")).
  apply read_quoted_escaped.
Qed.

Example escape_quote_and_backslash :
  escape_command_string (lit "say " ++ quote :: lit "a\b" ++ [quote])
  = lit "say \" ++ quote :: lit "a\\b\" ++ [quote].
Proof. reflexivity. Qed.

(** ** The matcher never has to go back on the move pattern *)

Section MatcherFacts.
Context {R : Type}.
Implicit Types k : str -> option R.

Lemma skip_head a s d u : skip a s = d :: u -> accepts a d = false.
Proof.
  induction s as [|c s IH]; [discriminate|].
  cbn [skip]. destruct (accepts a c) eqn:E; [exact IH|].
  intros [= <- <-]. exact E.
Qed.

Lemma skip_idem a s : skip a (skip a s) = skip a s.
Proof.
  induction s as [|c s IH]; [reflexivity|].
  cbn [skip]. destruct (accepts a c) eqn:E; [exact IH|].
  cbn [skip]. now rewrite E.
Qed.

Lemma many_ext a s k k' :
  (forall t, k t = k' t) -> many a s k = many a s k'.
Proof.
  intro H. induction s as [|c s IH]; cbn [many]; [apply H|].
  now rewrite IH, H.
Qed.

Lemma maybe_ext a s k k' :
  (forall t, k t = k' t) -> maybe a s k = maybe a s k'.
Proof.
  intro H. destruct s as [|c s]; cbn [maybe]; [apply H|].
  now rewrite !H.
Qed.

Lemma one_ext a s k k' :
  (forall t, k t = k' t) -> one a s k = one a s k'.
Proof.
  intro H. destruct s as [|c s]; cbn [one]; [reflexivity|].
  now rewrite H.
Qed.

(** When giving a character back cannot help, [a*] takes the longest
    run and never returns to a shorter one. *)
Lemma many_skip a s k :
  (forall c t, accepts a c = true ->
               k (skip a (c :: t)) = None -> k (c :: t) = None) ->
  many a s k = k (skip a s).
Proof.
  intro H. induction s as [|c s IH]; [reflexivity|].
  cbn [many]. destruct (accepts a c) eqn:E.
  - rewrite IH. pose proof (H c s E) as Hc. cbn [skip] in *.
    rewrite E in *. destruct (k (skip a s)) eqn:Ek; [reflexivity|].
    cbn [orelse]. now apply Hc.
  - cbn [skip]. now rewrite E.
Qed.

(** The same for [a?]. *)
Lemma maybe_skip a s k :
  (forall c t, accepts a c = true -> k t = None -> k (c :: t) = None) ->
  maybe a s k = k (skip1 a s).
Proof.
  intro H. destruct s as [|c s]; [reflexivity|].
  cbn [maybe skip1]. destruct (accepts a c) eqn:E; [|reflexivity].
  destruct (k s) eqn:Ek; [reflexivity|]. cbn [orelse]. now apply H.
Qed.
End MatcherFacts.

Lemma decimal_not_punctuation c :
  isdecimal c = true ->
  c <> minus /\ c <> dot /\ c <> comma /\ c <> space.
Proof.
  intro H. repeat split; intros ->; vm_compute in H; discriminate.
Qed.

Lemma run_group_numeral {R : Type} (k : str -> list str -> option R) s caps :
  tail_ok k ->
  run (Group numeral_re) s caps k
  = match scan_numeral s with
    | Some (g, r) => k r (caps ++ [g])
    | None => None
    end.
Proof.
  intro Hk. unfold numeral_re. cbn [run].
  set (K5 := fun s5 => k s5 (caps ++ [firstn (length s - length s5)%nat s])).
  assert (HK5 : (forall t, K5 t <> None)
                \/ (forall c t, isdecimal c = true \/ c = dot ->
                                K5 (c :: t) = None)).
  { destruct Hk as [Hk|Hk]; [left|right]; intros; apply Hk; assumption. }
  clear Hk.
  (* the digits after the point *)
  assert (E1 : forall s4, many Digit s4 K5 = K5 (skip Digit s4)).
  { intro s4. apply many_skip. intros c t Hc Hn.
    destruct HK5 as [Ht|Hr]; [now apply Ht in Hn|]. apply Hr. now left. }
  (* the point *)
  assert (E2 : forall s3, maybe (Chr dot) s3 (fun s4 => many Digit s4 K5)
                          = K5 (skip Digit (skip1 (Chr dot) s3))).
  { intro s3.
    rewrite (maybe_ext _ _ _ (fun s4 => K5 (skip Digit s4)) E1).
    apply (maybe_skip (Chr dot) s3 (fun s4 => K5 (skip Digit s4))).
    intros c t Hc Hn. cbn [accepts] in Hc. apply N.eqb_eq in Hc. subst c.
    change (skip Digit (dot :: t)) with (dot :: t).
    destruct HK5 as [Ht|Hr]; [now apply Ht in Hn|]. apply Hr. now right. }
  (* the digits before the point *)
  assert (E3 : forall s2,
             many Digit s2
                  (fun s3 => maybe (Chr dot) s3 (fun s4 => many Digit s4 K5))
             = K5 (skip Digit (skip1 (Chr dot) (skip Digit s2)))).
  { intro s2.
    rewrite (many_ext _ _ _ (fun s3 => K5 (skip Digit (skip1 (Chr dot) s3))) E2).
    apply (many_skip Digit s2
             (fun s3 => K5 (skip Digit (skip1 (Chr dot) s3)))).
    intros c t Hc Hn. cbn [accepts] in Hc.
    destruct HK5 as [Ht|Hr]; [now apply Ht in Hn|].
    destruct (decimal_not_punctuation c Hc) as (_ & Hdot & _).
    cbn [skip1 accepts]. destruct (N.eqb_spec c dot); [contradiction|].
    destruct (skip Digit (c :: t)) as [|d u] eqn:Eu.
    - exact Hn.
    - pose proof (skip_head _ _ _ _ Eu) as Hd. cbn [accepts] in Hd.
      cbn [skip1 accepts] in Hn.
      destruct (N.eqb_spec d dot) as [->|Hdd].
      + apply Hr. now right.
      + cbn [skip accepts] in Hn. rewrite Hd in Hn. exact Hn. }
  (* the minus *)
  rewrite (maybe_skip (Chr minus) s).
  - unfold scan_numeral.
    destruct (skip1 (Chr minus) s) as [|c s1]; [reflexivity|].
    cbn [one accepts]. destruct (isdecimal c); [|reflexivity].
    rewrite E3. reflexivity.
  - intros c t Hc _. cbn [accepts] in Hc. apply N.eqb_eq in Hc. subst c.
    reflexivity.
Qed.

Lemma run_chars {R : Type} p rs last s caps (k : str -> list str -> option R) :
  run (seq_of (chars p ++ rs) last) s caps k
  = match expect_all p s with
    | Some s' => run (seq_of rs last) s' caps k
    | None => None
    end.
Proof.
  revert s. induction p as [|c p IH]; intro s; [reflexivity|].
  cbn [chars List.map app seq_of run expect_all]. fold (chars p).
  destruct s as [|x s]; [reflexivity|].
  cbn [one accepts expect]. destruct (N.eqb x c); [apply IH|reflexivity].
Qed.

Lemma run_comma {R : Type} r s caps (k : str -> list str -> option R) :
  run (Seq (One (Chr comma)) r) s caps k
  = match expect comma s with
    | Some s' => run r s' caps k
    | None => None
    end.
Proof.
  cbn [run]. destruct s as [|x s]; [reflexivity|].
  cbn [one accepts expect]. now destruct (N.eqb x comma).
Qed.

Lemma tail_ok_comma {R : Type} r (k : str -> list str -> option R) :
  tail_ok (fun s caps => run (Seq (One (Chr comma)) r) s caps k).
Proof.
  right. intros c t caps Hc. rewrite run_comma. cbn [expect].
  destruct (N.eqb_spec c comma) as [->|]; [|reflexivity].
  destruct Hc as [Hc|Hc]; [|discriminate].
  now apply decimal_not_punctuation in Hc.
Qed.

Lemma scan_numeral_space t : scan_numeral (space :: t) = None.
Proof. reflexivity. Qed.

Lemma run_spaces_numeral {R : Type} r s caps
      (k : str -> list str -> option R) :
  tail_ok (fun s' caps' => run r s' caps' k) ->
  run (Seq (Many (Chr space)) (Seq (Group numeral_re) r)) s caps k
  = match scan_numeral (skip (Chr space) s) with
    | Some (g, rest) => run r rest (caps ++ [g]) k
    | None => None
    end.
Proof.
  intro Hk.
  change (run (Seq (Many (Chr space)) (Seq (Group numeral_re) r)) s caps k)
    with (many (Chr space) s
               (fun s' => run (Group numeral_re) s' caps
                              (fun s'' caps' => run r s'' caps' k))).
  rewrite (many_ext _ _ _
             (fun s' => match scan_numeral s' with
                        | Some (g, rest) => run r rest (caps ++ [g]) k
                        | None => None
                        end)
             (fun s' => run_group_numeral _ s' caps Hk)).
  apply (many_skip (Chr space) s
           (fun s' => match scan_numeral s' with
                      | Some (g, rest) => run r rest (caps ++ [g]) k
                      | None => None
                      end)).
  intros c t Hc _. cbn [accepts] in Hc. apply N.eqb_eq in Hc. subst c.
  reflexivity.
Qed.

Lemma run_spaces_last_numeral {R : Type} s caps
      (k : str -> list str -> option R) :
  tail_ok k ->
  run (Seq (Many (Chr space)) (Group numeral_re)) s caps k
  = match scan_numeral (skip (Chr space) s) with
    | Some (g, rest) => k rest (caps ++ [g])
    | None => None
    end.
Proof.
  intro Hk.
  change (run (Seq (Many (Chr space)) (Group numeral_re)) s caps k)
    with (many (Chr space) s (fun s' => run (Group numeral_re) s' caps k)).
  rewrite (many_ext _ _ _
             (fun s' => match scan_numeral s' with
                        | Some (g, rest) => k rest (caps ++ [g])
                        | None => None
                        end)
             (fun s' => run_group_numeral _ s' caps Hk)).
  apply (many_skip (Chr space) s
           (fun s' => match scan_numeral s' with
                      | Some (g, rest) => k rest (caps ++ [g])
                      | None => None
                      end)).
  intros c t Hc _. cbn [accepts] in Hc. apply N.eqb_eq in Hc. subst c.
  reflexivity.
Qed.

(** [re.match] on the move pattern is the scanner that never goes back. *)
Theorem move_match_scan s : move_match s = scan_move s.
Proof.
  unfold move_match, rmatch, move_re, scan_move.
  rewrite run_chars.
  destruct (expect_all (lit "# move,") s) as [s0|]; [|reflexivity].
  cbn [seq_of].
  rewrite run_spaces_numeral by apply tail_ok_comma.
  destruct (scan_numeral (skip (Chr space) s0)) as [[g1 r1]|]; [|reflexivity].
  rewrite run_comma.
  destruct (expect comma r1) as [s1|]; [|reflexivity].
  rewrite run_spaces_numeral by apply tail_ok_comma.
  destruct (scan_numeral (skip (Chr space) s1)) as [[g2 r2]|]; [|reflexivity].
  rewrite run_comma.
  destruct (expect comma r2) as [s2|]; [|reflexivity].
  rewrite run_spaces_last_numeral by (left; discriminate).
  destruct (scan_numeral (skip (Chr space) s2)) as [[g3 r3]|]; reflexivity.
Qed.

(** ** What a captured group looks like *)

Lemma taken_skip a s : s = taken a s ++ skip a s.
Proof.
  induction s as [|c s IH]; [reflexivity|].
  cbn [taken skip]. destruct (accepts a c); [|reflexivity].
  cbn [app]. now f_equal.
Qed.

Lemma taken_accepted a s : Forall (fun c => accepts a c = true) (taken a s).
Proof.
  induction s as [|c s IH]; [constructor|].
  cbn [taken]. destruct (accepts a c) eqn:E; constructor; assumption.
Qed.

Lemma skip1_split a s :
  exists w, s = w ++ skip1 a s
            /\ (w = [] \/ exists c, w = [c] /\ accepts a c = true).
Proof.
  destruct s as [|c s]; [exists []; auto|].
  cbn [skip1]. destruct (accepts a c) eqn:E.
  - exists [c]. split; [reflexivity|]. right. eauto.
  - exists []. auto.
Qed.

Lemma firstn_prefix (g r : str) :
  firstn (length (g ++ r) - length r)%nat (g ++ r) = g.
Proof.
  rewrite length_app, Nat.add_sub.
  rewrite firstn_app, Nat.sub_diag, firstn_all. cbn [firstn].
  apply app_nil_r.
Qed.

(** A scanned numeral is a prefix of the text and has the shape of the
    pattern: optional minus, digits, optional point, optional digits. *)
Lemma scan_numeral_shape s g r :
  scan_numeral s = Some (g, r) -> s = g ++ r /\ is_numeral g.
Proof.
  unfold scan_numeral.
  destruct (skip1_split (Chr minus) s) as (sg & Es & Hsg).
  destruct (skip1 (Chr minus) s) as [|c s1]; [discriminate|].
  destruct (isdecimal c) eqn:Hc; [|discriminate].
  destruct (skip1_split (Chr dot) (skip Digit s1)) as (pt & Ept & Hpt).
  pose proof (taken_skip Digit s1) as E1.
  pose proof (taken_skip Digit (skip1 (Chr dot) (skip Digit s1))) as E2.
  set (r0 := skip Digit (skip1 (Chr dot) (skip Digit s1))) in *.
  set (d2 := taken Digit (skip1 (Chr dot) (skip Digit s1))) in *.
  assert (Eg : s = (sg ++ (c :: taken Digit s1) ++ pt ++ d2) ++ r0).
  { transitivity (sg ++ c :: s1); [exact Es|].
    rewrite <- ?app_assoc. f_equal. cbn [app]. f_equal.
    rewrite <- ?app_assoc.
    transitivity (taken Digit s1 ++ skip Digit s1); [exact E1|]. f_equal.
    transitivity (pt ++ skip1 (Chr dot) (skip Digit s1)); [exact Ept|].
    f_equal. exact E2. }
  assert (Ef : firstn (length s - length r0)%nat s
               = sg ++ (c :: taken Digit s1) ++ pt ++ d2).
  { rewrite Eg. apply firstn_prefix. }
  rewrite Ef. intros [= <- <-].
  split; [exact Eg|].
  exists sg, (c :: taken Digit s1), pt, d2. repeat split.
  - destruct Hsg as [->|(x & -> & Hx)]; [now left|right].
    cbn [accepts] in Hx. apply N.eqb_eq in Hx. now subst.
  - discriminate.
  - constructor; [exact Hc|apply (taken_accepted Digit)].
  - destruct Hpt as [->|(x & -> & Hx)]; [now left|right].
    cbn [accepts] in Hx. apply N.eqb_eq in Hx. now subst.
  - apply (taken_accepted Digit).
Qed.

Lemma scan_move_shape s caps rest :
  scan_move s = Some (caps, rest) ->
  exists g1 g2 g3,
    caps = [g1; g2; g3] /\ is_numeral g1 /\ is_numeral g2 /\ is_numeral g3.
Proof.
  unfold scan_move.
  destruct (expect_all _ s) as [s0|]; [|discriminate].
  destruct (scan_numeral _) as [[g1 r1]|] eqn:E1; [|discriminate].
  destruct (expect comma r1) as [s1|]; [|discriminate].
  destruct (scan_numeral (skip _ s1)) as [[g2 r2]|] eqn:E2; [|discriminate].
  destruct (expect comma r2) as [s2|]; [|discriminate].
  destruct (scan_numeral (skip _ s2)) as [[g3 r3]|] eqn:E3; [|discriminate].
  intros [= <- <-]. exists g1, g2, g3.
  apply scan_numeral_shape in E1, E2, E3. tauto.
Qed.

(** ** [float] and [int] on a captured group *)

Lemma isspace_bound c : isspace c = true -> (c <= 12288)%N.
Proof.
  unfold isspace.
  rewrite !orb_true_iff, !andb_true_iff, !N.leb_le, !N.eqb_eq. lia.
Qed.

Lemma low_code_points_checked :
  forallb (fun n => negb (isspace n && isdecimal n))
          (List.map N.of_nat (seq 0 (N.to_nat 12289))) = true.
Proof. vm_compute. reflexivity. Qed.

Lemma decimal_not_space c : isdecimal c = true -> isspace c = false.
Proof.
  intro Hd. destruct (isspace c) eqn:Hs; [|reflexivity].
  pose proof (isspace_bound c Hs) as Hb.
  pose proof low_code_points_checked as H.
  rewrite forallb_forall in H.
  specialize (H c). rewrite Hs, Hd in H. 
  assert (In c (List.map N.of_nat (seq 0 (N.to_nat 12289)))).
  { apply in_map_iff. exists (N.to_nat c). split; [apply N2Nat.id|].
    apply in_seq. lia. }
  specialize (H H0). discriminate.
Qed.

Lemma rstrip_no_space s :
  Forall (fun c => isspace c = false) s -> rstrip s = s.
Proof.
  induction 1 as [|c s Hc Hs IH]; [reflexivity|].
  cbn [rstrip]. rewrite IH, Hc. now destruct s.
Qed.

Lemma strip_no_space s :
  Forall (fun c => isspace c = false) s -> strip s = s.
Proof.
  intro H. unfold strip.
  assert (E : lstrip s = s).
  { destruct H as [|c s Hc Hs]; [reflexivity|]. cbn [lstrip]. now rewrite Hc. }
  rewrite E. now apply rstrip_no_space.
Qed.

Lemma all_decimal_no_space ds :
  all_decimal ds -> Forall (fun c => isspace c = false) ds.
Proof.
  intro H. eapply Forall_impl; [|exact H]. apply decimal_not_space.
Qed.

Lemma numeral_no_space g :
  is_numeral g -> Forall (fun c => isspace c = false) g.
Proof.
  intros (sg & ds1 & pt & ds2 & -> & Hsg & _ & H1 & Hpt & H2).
  repeat (apply Forall_app; split).
  - destruct Hsg as [->| ->]; repeat constructor.
  - now apply all_decimal_no_space.
  - destruct Hpt as [->| ->]; repeat constructor.
  - now apply all_decimal_no_space.
Qed.

Lemma decimal_value_nonneg c d : decimal c = Some d -> 0 <= d.
Proof.
  unfold decimal. generalize decimal_zeros.
  induction l as [|z zs IH]; [discriminate|].
  cbn [decimal_in]. destruct ((z <=? c) && (c <? z + 10))%N; [|exact IH].
  intros [= <-]. lia.
Qed.

Lemma take_digits_run ds rest acc n :
  all_decimal ds -> 0 <= acc ->
  exists v, 0 <= v
            /\ take_digits (ds ++ rest) acc n
               = take_digits rest v (n + length ds).
Proof.
  intro H. revert acc n.
  induction H as [|c ds Hc Hds IH]; intros acc n Hacc.
  - exists acc. rewrite Nat.add_0_r. auto.
  - cbn [app take_digits]. unfold isdecimal in Hc.
    destruct (decimal c) as [d|] eqn:Ed; [|discriminate].
    pose proof (decimal_value_nonneg c d Ed).
    destruct (IH (acc * 10 + d) (S n)) as (v & Hv & E); [lia|].
    exists v. split; [assumption|]. rewrite E. cbn [length].
    now rewrite Nat.add_succ_r.
Qed.

Lemma round_half_even_nonneg p q : 0 <= p -> 0 < q -> 0 <= round_half_even p q.
Proof.
  intros Hp Hq. unfold round_half_even.
  assert (0 <= p / q) by (apply Z.div_pos; lia).
  destruct (2 * (p mod q) ?= q); [destruct (Z.even (p / q))|..]; lia.
Qed.

Lemma nearest_double_well_signed neg p q :
  0 <= p -> 0 < q -> well_signed (nearest_double neg p q).
Proof.
  intros Hp Hq. unfold nearest_double.
  destruct (p =? 0); [cbn; lia|].
  set (e := Z.max (binade p q - 52) (-1074)).
  destruct (0 <=? e) eqn:He.
  - apply Z.leb_le in He.
    assert (0 < q * 2 ^ e) by (apply Z.mul_pos_pos; [lia|apply Z.pow_pos_nonneg; lia]).
    destruct (_ && _); cbn [well_signed]; [trivial|].
    now apply round_half_even_nonneg.
  - apply Z.leb_gt in He. cbn [andb well_signed].
    apply round_half_even_nonneg; [|assumption].
    apply Z.mul_nonneg_nonneg; [lia|]. apply Z.pow_nonneg. lia.
Qed.

(** [float] accepts every text of the numeral shape: it returns the
    double nearest to the number written. *)
Lemma py_float_numeral g :
  is_numeral g ->
  exists neg p k,
    0 <= p /\ py_float g = Ok (nearest_double neg p (10 ^ Z.of_nat k)).
Proof.
  intro Hg. pose proof (numeral_no_space g Hg) as Hns.
  unfold py_float. rewrite (strip_no_space g Hns).
  destruct Hg as (sg & ds1 & pt & ds2 & -> & Hsg & Hne & H1 & Hpt & H2).
  assert (Hsign : exists neg, take_sign (sg ++ ds1 ++ pt ++ ds2)
                              = (neg, ds1 ++ pt ++ ds2)).
  { destruct Hsg as [->| ->]; [|exists true; reflexivity].
    exists false. destruct H1 as [|c ds1 Hc _]; [contradiction|].
    cbn [app take_sign].
    destruct (N.eqb_spec c minus) as [->|]; [vm_compute in Hc; discriminate|].
    destruct (N.eqb_spec c 43) as [->|]; [vm_compute in Hc; discriminate|].
    reflexivity. }
  destruct Hsign as (neg & ->).
  assert (Hlen : (0 < length ds1)%nat) by (destruct ds1; [contradiction|cbn; lia]).
  destruct Hpt as [->| ->].
  - cbn [app].
    destruct (take_digits_run (ds1 ++ ds2) [] 0 0) as (v & Hv & E);
      [apply Forall_app; auto|lia|].
    rewrite app_nil_r in E. rewrite E. cbn [take_digits take_dot].
    exists neg, v, 0%nat. split; [assumption|].
    destruct (Nat.eqb_spec (0 + length (ds1 ++ ds2) + 0) 0) as [E0|_];
      [rewrite length_app in E0; lia|reflexivity].
  - destruct (take_digits_run ds1 ([dot] ++ ds2) 0 0 H1) as (v & Hv & E); [lia|].
    rewrite E. cbn [app take_digits].
    change (decimal dot) with (@None Z). cbn [take_dot N.eqb dot Pos.eqb].
    destruct (take_digits_run ds2 [] v 0 H2 Hv) as (w & Hw & E2).
    rewrite app_nil_r in E2. rewrite E2. cbn [take_digits].
    exists neg, w, (0 + length ds2)%nat. split; [assumption|].
    destruct (Nat.eqb_spec (0 + length ds1 + (0 + length ds2)) 0) as [E0|_];
      [lia|reflexivity].
Qed.

Lemma py_int_integer_part f x :
  well_signed f -> py_int f = Ok x -> integer_part_of f x.
Proof.
  destruct f as [neg m e|neg]; [|discriminate].
  cbn [well_signed py_int integer_part_of]. intros Hm [= <-].
  destruct (0 <=? e) eqn:He.
  - apply Z.leb_le in He.
    assert (0 <= m * 2 ^ e)
      by (apply Z.mul_nonneg_nonneg; [lia|apply Z.pow_nonneg; lia]).
    rewrite (Z.max_l 0 (- e)), (Z.max_r 0 e) by lia.
    change (2 ^ 0) with 1. destruct neg; lia.
  - apply Z.leb_gt in He.
    assert (Hp : 0 < 2 ^ (- e)) by (apply Z.pow_pos_nonneg; lia).
    assert (0 <= m / 2 ^ (- e)) by (apply Z.div_pos; lia).
    rewrite (Z.max_r 0 (- e)), (Z.max_l 0 e) by lia.
    change (2 ^ 0) with 1.
    pose proof (Z.mul_div_le m (2 ^ (- e)) Hp).
    pose proof (Z.mul_succ_div_gt m (2 ^ (- e)) Hp).
    destruct neg; split; try lia;
      rewrite ?Z.abs_opp, Z.abs_eq by lia; lia.
Qed.

(** ** The line parser *)

Lemma parse_line_unfold n line :
  parse_line n line
  = if blank_or_comment line then Skip
    else match move_match (strip line) with
         | Some (caps, _) =>
             match (x <- coordinate caps 1 ;;
                    y <- coordinate caps 2 ;;
                    z <- coordinate caps 3 ;;
                    Ok (Move x y z)) with
             | Ok i => Append i
             | Raise e =>
                 if is_value_error e then Warn (warning_text n (strip line))
                 else Abort e
             end
         | None => Append (Command (strip line))
         end.
Proof.
  unfold parse_line, blank_or_comment.
  destruct (strip line) as [|c s]; reflexivity.
Qed.

(** On a captured group, [int(float(g))] gives the integer part of the
    double nearest to the numeral, or fails with [OverflowError] when that
    double is infinite; it never fails with [ValueError]. *)
Lemma coordinate_of_numeral g :
  is_numeral g ->
  exists f, py_float g = Ok f /\ well_signed f
            /\ ((exists x, py_int f = Ok x /\ integer_part_of f x)
                \/ py_int f = Raise OverflowError).
Proof.
  intro Hg. destruct (py_float_numeral g Hg) as (neg & p & k & Hp & E).
  exists (nearest_double neg p (10 ^ Z.of_nat k)).
  assert (W : well_signed (nearest_double neg p (10 ^ Z.of_nat k))).
  { apply nearest_double_well_signed; [assumption|].
    apply Z.pow_pos_nonneg; lia. }
  repeat split; try assumption.
  destruct (nearest_double neg p (10 ^ Z.of_nat k)) as [sg m e|sg] eqn:Ef.
  - left. eexists. split; [reflexivity|].
    now apply py_int_integer_part.
  - now right.
Qed.

Lemma coordinates_of_match caps rest s :
  move_match s = Some (caps, rest) ->
  exists g1 g2 g3,
    caps = [g1; g2; g3] /\ is_numeral g1 /\ is_numeral g2 /\ is_numeral g3.
Proof. rewrite move_match_scan. apply scan_move_shape. Qed.

(** A line that matches the pattern becomes a [Move] whose fields are
    the integer parts of the three doubles, unless a double is infinite,
    in which case [OverflowError] leaves the parser. *)
Lemma matching_line_effect n line caps rest :
  blank_or_comment line = false ->
  move_match (strip line) = Some (caps, rest) ->
  exists g1 g2 g3 f1 f2 f3,
    caps = [g1; g2; g3]
    /\ is_numeral g1 /\ is_numeral g2 /\ is_numeral g3
    /\ py_float g1 = Ok f1 /\ py_float g2 = Ok f2 /\ py_float g3 = Ok f3
    /\ ((exists x y z,
            parse_line n line = Append (Move x y z)
            /\ py_int f1 = Ok x /\ py_int f2 = Ok y /\ py_int f3 = Ok z
            /\ integer_part_of f1 x /\ integer_part_of f2 y
            /\ integer_part_of f3 z)
        \/ (parse_line n line = Abort OverflowError
            /\ (py_int f1 = Raise OverflowError
                \/ py_int f2 = Raise OverflowError
                \/ py_int f3 = Raise OverflowError))).
Proof.
  intros Hb Hm. rewrite parse_line_unfold, Hb, Hm.
  destruct (coordinates_of_match _ _ _ Hm) as (g1 & g2 & g3 & -> & N1 & N2 & N3).
  destruct (coordinate_of_numeral g1 N1) as (f1 & E1 & _ & C1).
  destruct (coordinate_of_numeral g2 N2) as (f2 & E2 & _ & C2).
  destruct (coordinate_of_numeral g3 N3) as (f3 & E3 & _ & C3).
  exists g1, g2, g3, f1, f2, f3.
  split; [reflexivity|]. repeat (split; [assumption|]).
  unfold coordinate. cbn [nth Nat.sub]. rewrite E1, E2, E3. cbn [bind].
  destruct C1 as [(x & Ex & Ix)| ->];
    [rewrite Ex|right; split; [reflexivity|auto]].
  destruct C2 as [(y & Ey & Iy)| ->];
    [rewrite Ey|right; split; [reflexivity|auto]].
  destruct C3 as [(z & Ez & Iz)| ->];
    [rewrite Ez|right; split; [reflexivity|auto]].
  cbn [bind]. left. exists x, y, z. auto 10.
Qed.

(** The warning of the parser is never printed. *)
Lemma parse_line_never_warns n line w : parse_line n line <> Warn w.
Proof.
  destruct (blank_or_comment line) eqn:Hb.
  - rewrite parse_line_unfold, Hb. discriminate.
  - destruct (move_match (strip line)) as [[caps rest]|] eqn:Hm.
    + destruct (matching_line_effect n line caps rest Hb Hm)
        as (g1 & g2 & g3 & f1 & f2 & f3 & _ & _ & _ & _ & _ & _ & _ & H).
      destruct H as [(x & y & z & -> & _)|[-> _]]; discriminate.
    + rewrite parse_line_unfold, Hb, Hm. discriminate.
Qed.

Lemma parse_lines_prints_nothing n lines ins out :
  fst (parse_lines n lines ins out) = out.
Proof.
  revert n ins. induction lines as [|l lines IH]; intros n ins; [reflexivity|].
  cbn [parse_lines]. destruct (parse_line n l) eqn:E; try apply IH.
  - now apply parse_line_never_warns in E.
  - reflexivity.
Qed.

Lemma parse_lines_from n lines ins out :
  snd (parse_lines n lines ins out)
  = (x <- snd (parse_lines n lines [] []) ;; Ok (ins ++ x)).
Proof.
  revert n ins out.
  induction lines as [|l lines IH]; intros n ins out.
  - cbn. now rewrite app_nil_r.
  - cbn [parse_lines]. destruct (parse_line n l) eqn:E.
    + apply IH.
    + rewrite IH. rewrite (IH (n + 1) ([] ++ [i])).
      destruct (snd (parse_lines (n + 1) lines [] [])); cbn [bind app];
        [now rewrite <- app_assoc|reflexivity].
    + now apply parse_line_never_warns in E.
    + reflexivity.
Qed.

Lemma parse_lines_app n l1 l2 ins out :
  parse_lines n (l1 ++ l2) ins out
  = match parse_lines n l1 ins out with
    | (out1, Ok ins1) => parse_lines (n + Z.of_nat (length l1)) l2 ins1 out1
    | (out1, Raise e) => (out1, Raise e)
    end.
Proof.
  revert n ins out. induction l1 as [|l l1 IH]; intros n ins out.
  - cbn [app parse_lines length]. now rewrite Z.add_0_r.
  - cbn [app parse_lines length].
    replace (n + Z.of_nat (S (length l1)))
      with (n + 1 + Z.of_nat (length l1)) by lia.
    destruct (parse_line n l); try apply IH. reflexivity.
Qed.



(** C1, as the code has it.  A line that does not match the move
    pattern, such as [# move, abc, 1, 2] whose first group is no numeral,
    is neither skipped nor warned about: it adds one [Command] holding the
    trimmed line, nothing is printed, and the lines before and after it
    yield their instructions as they do on their own. *)
Theorem unmatched_move_line_is_a_command n pre line post
        (Hline : blank_or_comment line = false)
        (Hno : move_match (strip line) = None) :
  parse_line (n + Z.of_nat (length pre)) line = Append (Command (strip line))
  /\ fst (parse_lines n (pre ++ line :: post) [] []) = []
  /\ snd (parse_lines n (pre ++ line :: post) [] [])
     = (a <- snd (parse_lines n pre [] []) ;;
        b <- snd (parse_lines (n + Z.of_nat (length pre) + 1) post [] []) ;;
        Ok (a ++ Command (strip line) :: b)).
Proof.
  assert (E : forall m, parse_line m line = Append (Command (strip line))).
  { intro m. now rewrite parse_line_unfold, Hline, Hno. }
  split; [apply E|]. split; [apply parse_lines_prints_nothing|].
  rewrite parse_lines_app.
  pose proof (parse_lines_prints_nothing n pre [] []) as Hout.
  destruct (parse_lines n pre [] []) as [out1 [a|e]]; cbn [fst snd bind] in *;
    [|reflexivity].
  subst out1. cbn [parse_lines]. rewrite E.
  rewrite parse_lines_from.
  destruct (snd (parse_lines _ post [] [])); cbn [bind];
    [now rewrite <- app_assoc|reflexivity].
Qed.

Lemma unmatched_move_line_is_a_command_witness :
  blank_or_comment (lit "# move, abc, 1, 2") = false
  /\ move_match (strip (lit "# move, abc, 1, 2")) = None
  /\ snd (parse_lines 1 ([lit "say hi"] ++ lit "# move, abc, 1, 2"
                           :: [lit "# move, 1, 2, 3"]) [] [])
     = Ok [Command (lit "say hi"); Command (lit "# move, abc, 1, 2");
           Move 1 2 3].
Proof.
  split; [reflexivity|]. split; [reflexivity|].
  rewrite (proj2 (proj2 (unmatched_move_line_is_a_command 1 [lit "say hi"]
             (lit "# move, abc, 1, 2") [lit "# move, 1, 2, 3"]
             eq_refl eq_refl))).
  vm_compute. reflexivity.
Defined.

(** C1 as the specification states it does not hold: the line
    [# move, abc, 1, 2] prints no warning and does add an instruction. *)
Lemma malformed_move_line_is_kept_without_warning :
  parse_commands_from_file
    (Opened [lit "# move, abc, 1, 2"; lit "say hi"] true) (lit "cb.mcfunction")
  = ([], Ok (Some [Command (lit "# move, abc, 1, 2"); Command (lit "say hi")])).
Proof. vm_compute. reflexivity. Qed.

(** C7, as the code has it.  The parser prints the not-found message
    and returns [None] exactly when [open] raises [FileNotFoundError], and
    the script then exits having sent nothing.  A file that cannot be
    opened for another reason, or whose bytes cannot be decoded, is not
    reported as not found: the exception leaves the parser and ends the
    script.  A file of blank and [# comment] lines gives the empty list
    with nothing printed by the parser, and the script reports that no
    instructions were found and exits. *)
Theorem not_found_or_empty cfg file filepath e lines
        (Hlines : forallb blank_or_comment lines = true) :
  (snd (parse_commands_from_file file filepath) = Ok None <-> file = NotFound)
  /\ parse_commands_from_file NotFound filepath
     = ([not_found_text filepath], Ok None)
  /\ main cfg NotFound
     = (banner cfg ++ [Print (not_found_text (COMMAND_FILE_PATH cfg))], Exited)
  /\ parse_commands_from_file (OpenFails e) filepath = ([], Raise e)
  /\ main cfg (OpenFails e) = (banner cfg, Uncaught e)
  /\ parse_commands_from_file (Opened lines false) filepath
     = ([], Raise UnicodeDecodeError)
  /\ main cfg (Opened lines false) = (banner cfg, Uncaught UnicodeDecodeError)
  /\ parse_commands_from_file (Opened lines true) filepath = ([], Ok (Some []))
  /\ main cfg (Opened lines true)
     = (banner cfg
          ++ [Print (lit "No instructions to process were found in the file.")],
        Exited).
Proof.
  assert (E : forall n, parse_lines n lines [] [] = ([], Ok [])).
  { induction lines as [|l lines IH]; intro n; [reflexivity|].
    cbn [forallb] in Hlines. apply andb_true_iff in Hlines as [Hl Hrest].
    cbn [parse_lines]. rewrite parse_line_unfold, Hl. now apply IH. }
  split; [split|].
  - destruct file as [|e0|ls d]; [reflexivity|discriminate|].
    unfold parse_commands_from_file.
    destruct (parse_lines 1 ls [] []) as [out [i|e1]], d; discriminate.
  - now intros ->.
  - repeat split;
      unfold main, parse_commands_from_file; rewrite ?E; cbn [bind List.map];
      rewrite ?app_nil_r; reflexivity.
Qed.

Lemma not_found_or_empty_witness :
  forallb blank_or_comment [lit ""; lit "   "; lit "# comment one"] = true
  /\ main script_settings
          (Opened [lit ""; lit "   "; lit "# comment one"] true)
     = (banner script_settings
          ++ [Print (lit "No instructions to process were found in the file.")],
        Exited).
Proof.
  split; [reflexivity|].
  exact (proj2 (proj2 (proj2 (proj2 (proj2 (proj2 (proj2 (proj2
    (not_found_or_empty script_settings NotFound (lit "cb.mcfunction")
       PermissionError
       [lit ""; lit "   "; lit "# comment one"] eq_refl))))))))).
Defined.

(** C7 as the specification states it does not hold: a source that
    cannot be opened for lack of permission is not answered with the
    not-found message and [None]; [PermissionError] leaves the parser. *)
Lemma unopenable_source_is_not_reported_as_not_found :
  parse_commands_from_file (OpenFails PermissionError) (lit "cb.mcfunction")
  = ([], Raise PermissionError).
Proof. reflexivity. Qed.

(** C9 at a numeral too large for a double: the line matches the
    pattern, the conversion raises [OverflowError], which the handler for
    [ValueError] does not catch, so no [Move] is produced and the parser is
    left with the exception; the script ends there. *)
Theorem huge_numeral_aborts_the_parser :
  (exists g1 g2 g3, move_match (huge_move 309) = Some ([g1; g2; g3], []))
  /\ parse_line 1 (huge_move 309) = Abort OverflowError
  /\ parse_commands_from_file (Opened [huge_move 309; lit "say hi"] true)
                              (lit "cb.mcfunction")
     = ([], Raise OverflowError)
  /\ main script_settings (Opened [huge_move 309; lit "say hi"] true)
     = (banner script_settings, Uncaught OverflowError).
Proof.
  split; [do 3 eexists; vm_compute; reflexivity|].
  repeat split; vm_compute; reflexivity.
Qed.

(** ** Text after the pattern *)

Lemma expect_split c s s' : expect c s = Some s' -> s = c :: s'.
Proof.
  destruct s as [|x s]; [discriminate|]. cbn [expect].
  destruct (N.eqb_spec x c) as [->|]; [|discriminate]. now intros [= ->].
Qed.

Lemma expect_all_split p s s' : expect_all p s = Some s' -> s = p ++ s'.
Proof.
  revert s. induction p as [|c p IH]; intro s; cbn [expect_all].
  - now intros [= ->].
  - destruct (expect c s) as [s1|] eqn:E; [|discriminate].
    intro H. apply expect_split in E. apply IH in H. now subst.
Qed.

Lemma expect_app c s s' t :
  expect c s = Some s' -> expect c (s ++ t) = Some (s' ++ t).
Proof.
  intro H. apply expect_split in H. subst s. cbn [app expect].
  now rewrite N.eqb_refl.
Qed.

Lemma expect_all_app p s s' t :
  expect_all p s = Some s' -> expect_all p (s ++ t) = Some (s' ++ t).
Proof.
  revert s. induction p as [|c p IH]; intro s; cbn [expect_all].
  - now intros [= ->].
  - destruct (expect c s) as [s1|] eqn:E; [|discriminate].
    intro H. rewrite (expect_app _ _ _ t E). now apply IH.
Qed.

Lemma skip_app_nonempty a s t :
  skip a s <> [] -> skip a (s ++ t) = skip a s ++ t.
Proof.
  induction s as [|c s IH]; [contradiction|].
  cbn [app skip]. destruct (accepts a c); [exact IH|reflexivity].
Qed.

Lemma skip_digits_app s t :
  extends_numeral t = false -> skip Digit (s ++ t) = skip Digit s ++ t.
Proof.
  intro Ht. induction s as [|c s IH].
  - destruct t as [|d t]; [reflexivity|]. cbn [extends_numeral] in Ht.
    apply orb_false_iff in Ht as [Hd _]. cbn [app skip accepts]. now rewrite Hd.
  - cbn [app skip]. destruct (accepts Digit c); [exact IH|reflexivity].
Qed.

Lemma skip1_dot_app s t :
  extends_numeral t = false ->
  skip1 (Chr dot) (s ++ t) = skip1 (Chr dot) s ++ t.
Proof.
  intro Ht. destruct s as [|c s].
  - destruct t as [|d t]; [reflexivity|]. cbn [extends_numeral] in Ht.
    apply orb_false_iff in Ht as [_ Hd]. cbn [app skip1 accepts]. now rewrite Hd.
  - cbn [app skip1]. now destruct (accepts (Chr dot) c).
Qed.

Lemma scan_numeral_app s g r t :
  scan_numeral s = Some (g, r) -> extends_numeral t = false ->
  scan_numeral (s ++ t) = Some (g, r ++ t).
Proof.
  intros H Ht. destruct (scan_numeral_shape s g r H) as [Es _].
  unfold scan_numeral in *.
  assert (E1 : skip1 (Chr minus) (s ++ t) = skip1 (Chr minus) s ++ t).
  { destruct s as [|c s]; [discriminate|].
    cbn [app skip1]. now destruct (accepts (Chr minus) c). }
  rewrite E1. destruct (skip1 (Chr minus) s) as [|c s1]; [discriminate|].
  cbn [app]. destruct (isdecimal c); [|discriminate].
  injection H as Hg Hr.
  rewrite skip_digits_app, skip1_dot_app, skip_digits_app by assumption.
  rewrite Hr. f_equal. f_equal.
  clear Hg E1. subst s. rewrite <- app_assoc. apply firstn_prefix.
Qed.

Lemma scan_numeral_nonempty s g r : scan_numeral s = Some (g, r) -> s <> [].
Proof. now intros H ->. Qed.

Lemma scan_move_app p caps r t :
  scan_move p = Some (caps, r) -> extends_numeral t = false ->
  scan_move (p ++ t) = Some (caps, r ++ t).
Proof.
  unfold scan_move. intros H Ht.
  destruct (expect_all _ p) as [s0|] eqn:E0; [|discriminate].
  rewrite (expect_all_app _ _ _ t E0).
  destruct (scan_numeral (skip _ s0)) as [[g1 r1]|] eqn:N1; [|discriminate].
  rewrite skip_app_nonempty by (eapply scan_numeral_nonempty; eassumption).
  rewrite (scan_numeral_app _ _ _ t N1 Ht).
  destruct (expect comma r1) as [s1|] eqn:E1; [|discriminate].
  rewrite (expect_app _ _ _ t E1).
  destruct (scan_numeral (skip _ s1)) as [[g2 r2]|] eqn:N2; [|discriminate].
  rewrite skip_app_nonempty by (eapply scan_numeral_nonempty; eassumption).
  rewrite (scan_numeral_app _ _ _ t N2 Ht).
  destruct (expect comma r2) as [s2|] eqn:E2; [|discriminate].
  rewrite (expect_app _ _ _ t E2).
  destruct (scan_numeral (skip _ s2)) as [[g3 r3]|] eqn:N3; [|discriminate].
  rewrite skip_app_nonempty by (eapply scan_numeral_nonempty; eassumption).
  rewrite (scan_numeral_app _ _ _ t N3 Ht).
  now injection H as <- <-.
Qed.

(** A text the pattern matches begins with [# move,] and the match ends
    with the third group. *)
Lemma scan_move_split p caps r :
  scan_move p = Some (caps, r) ->
  exists q g3, p = lit "# move," ++ q ++ g3 ++ r /\ is_numeral g3.
Proof.
  unfold scan_move.
  destruct (expect_all _ p) as [s0|] eqn:E0; [|discriminate].
  destruct (scan_numeral (skip _ s0)) as [[g1 r1]|] eqn:N1; [|discriminate].
  destruct (expect comma r1) as [s1|] eqn:E1; [|discriminate].
  destruct (scan_numeral (skip _ s1)) as [[g2 r2]|] eqn:N2; [|discriminate].
  destruct (expect comma r2) as [s2|] eqn:E2; [|discriminate].
  destruct (scan_numeral (skip _ s2)) as [[g3 r3]|] eqn:N3; [|discriminate].
  intros [= <- <-].
  apply expect_all_split in E0. apply expect_split in E1, E2.
  apply scan_numeral_shape in N1 as [S1 _], N2 as [S2 _], N3 as [S3 H3].
  pose proof (taken_skip (Chr space) s0) as T0.
  pose proof (taken_skip (Chr space) s1) as T1.
  pose proof (taken_skip (Chr space) s2) as T2.
  exists (taken (Chr space) s0 ++ g1 ++ comma :: taken (Chr space) s1
            ++ g2 ++ comma :: taken (Chr space) s2), g3.
  split; [|exact H3].
  rewrite E0. f_equal. rewrite T0 at 1. rewrite <- !app_assoc. f_equal.
  rewrite S1. f_equal. rewrite E1. cbn [app]. f_equal.
  rewrite T1 at 1. rewrite <- !app_assoc. f_equal.
  rewrite S2. f_equal. rewrite E2. cbn [app]. f_equal.
  rewrite T2 at 1. f_equal. exact S3.
Qed.

Lemma rstrip_after_solid g t :
  g <> [] -> Forall (fun c => isspace c = false) g ->
  rstrip (g ++ t) = g ++ rstrip t.
Proof.
  intros Hne H. induction H as [|c g Hc Hg IH]; [contradiction|].
  cbn [app rstrip]. destruct g as [|d g].
  - cbn [app]. rewrite Hc. now destruct (rstrip t).
  - rewrite IH by discriminate. reflexivity.
Qed.

Lemma rstrip_app_kept a b : rstrip b <> [] -> rstrip (a ++ b) = a ++ rstrip b.
Proof.
  intro H. induction a as [|c a IH]; [reflexivity|].
  cbn [app rstrip]. rewrite IH.
  destruct (a ++ rstrip b) eqn:E; [|reflexivity].
  apply app_eq_nil in E as [_ E]. contradiction.
Qed.

Lemma rstrip_head t :
  rstrip t = [] \/ exists c t' t'', t = c :: t' /\ rstrip t = c :: t''.
Proof.
  destruct t as [|c t]; [now left|]. cbn [rstrip].
  destruct (rstrip t) as [|d r].
  - destruct (isspace c); [now left|right; eauto].
  - right. eauto.
Qed.

Lemma extends_numeral_rstrip t :
  extends_numeral t = false -> extends_numeral (rstrip t) = false.
Proof.
  intro H. destruct (rstrip_head t) as [->|(c & t' & t'' & -> & ->)];
    [reflexivity|exact H].
Qed.

(** Trimming a line made of a matched text and trailing text leaves the
    matched text untouched. *)
Lemma strip_matched_then_text p caps t :
  move_match p = Some (caps, []) -> strip (p ++ t) = p ++ rstrip t.
Proof.
  rewrite move_match_scan. intro H.
  destruct (scan_move_split p caps [] H) as (q & g3 & -> & Hg).
  rewrite app_nil_r. unfold strip.
  change (lstrip ((lit "# move," ++ q ++ g3) ++ t))
    with ((lit "# move," ++ q ++ g3) ++ t).
  rewrite <- !app_assoc.
  assert (E : rstrip (g3 ++ t) = g3 ++ rstrip t).
  { apply rstrip_after_solid; [|now apply numeral_no_space].
    destruct Hg as (sg & ds1 & pt & ds2 & -> & _ & Hne & _).
    destruct sg, ds1; try discriminate. contradiction. }
  rewrite (app_assoc (lit "# move,") q (g3 ++ t)).
  rewrite rstrip_app_kept; rewrite E.
  - now rewrite <- app_assoc.
  - destruct Hg as (sg & ds1 & pt & ds2 & -> & _ & Hne & _).
    destruct sg, ds1; try discriminate. contradiction.
Qed.

Lemma matched_not_blank_or_comment p caps r t :
  move_match p = Some (caps, r) -> blank_or_comment p = false ->
  strip (p ++ t) = p ++ rstrip t ->
  blank_or_comment (p ++ t) = false.
Proof.
  rewrite move_match_scan. intros H _ Es.
  destruct (scan_move_split p caps r H) as (q & g3 & -> & _).
  unfold blank_or_comment. rewrite Es. reflexivity.
Qed.

Lemma skip_run a w u :
  Forall (fun c => accepts a c = true) w -> skip a (w ++ u) = skip a u.
Proof.
  induction 1 as [|c w Hc Hw IH]; [reflexivity|].
  cbn [app skip]. now rewrite Hc.
Qed.

Lemma taken_then_solid a s u c u' :
  u = c :: u' -> accepts a c = false -> skip a (taken a s ++ u) = u.
Proof.
  intros -> Hc. rewrite skip_run by apply taken_accepted.
  cbn [skip]. now rewrite Hc.
Qed.

(** Every text of the numeral shape is scanned whole. *)
Lemma scan_numeral_complete g : is_numeral g -> scan_numeral g = Some (g, []).
Proof.
  intros (sg & ds1 & pt & ds2 & -> & Hsg & Hne & H1 & Hpt & H2).
  destruct H1 as [|c ds1 Hc H1]; [contradiction|].
  unfold scan_numeral.
  assert (E : skip1 (Chr minus) (sg ++ (c :: ds1) ++ pt ++ ds2)
              = c :: ds1 ++ pt ++ ds2).
  { destruct Hsg as [->| ->]; [|reflexivity].
    cbn [app skip1 accepts].
    destruct (N.eqb_spec c minus) as [->|]; [|reflexivity].
    vm_compute in Hc. discriminate. }
  rewrite E, Hc.
  assert (Er : skip Digit (skip1 (Chr dot) (skip Digit (ds1 ++ pt ++ ds2))) = []).
  { destruct Hpt as [->| ->].
    - cbn [app]. rewrite <- (app_nil_r (ds1 ++ ds2)).
      rewrite (skip_run Digit) by (apply Forall_app; auto). reflexivity.
    - rewrite (skip_run Digit) by assumption.
      change (skip1 (Chr dot) (skip Digit ([dot] ++ ds2))) with ds2.
      rewrite <- (app_nil_r ds2). now rewrite (skip_run Digit). }
  rewrite Er. cbn [length]. now rewrite Nat.sub_0_r, firstn_all.
Qed.

Lemma numeral_head g :
  is_numeral g -> exists c g', g = c :: g' /\ c <> space.
Proof.
  intros (sg & ds1 & pt & ds2 & -> & Hsg & Hne & H1 & _).
  destruct H1 as [|c ds1 Hc H1]; [contradiction|].
  destruct Hsg as [->| ->].
  - exists c, (ds1 ++ pt ++ ds2). split; [reflexivity|].
    now apply decimal_not_punctuation in Hc.
  - exists minus, ((c :: ds1) ++ pt ++ ds2). split; [reflexivity|discriminate].
Qed.

Lemma expect_all_self p u : expect_all p (p ++ u) = Some u.
Proof.
  induction p as [|c p IH]; [reflexivity|].
  cbn [app expect_all expect]. now rewrite N.eqb_refl.
Qed.

(** Spaces, then a numeral, then text that starts with a comma or is
    empty: the scanner gives the numeral and stops in front of the text. *)
Lemma scan_spaces_numeral s0 g u :
  is_numeral g -> extends_numeral u = false ->
  scan_numeral (skip (Chr space) (taken (Chr space) s0 ++ g ++ u))
  = Some (g, u).
Proof.
  intros Hg Hu. destruct (numeral_head g Hg) as (c & g' & -> & Hc).
  rewrite (taken_then_solid (Chr space) s0 _ c (g' ++ u)); [|reflexivity|].
  - change ((c :: g') ++ u) with ((c :: g') ++ u).
    rewrite (scan_numeral_app _ _ _ u (scan_numeral_complete _ Hg) Hu).
    reflexivity.
  - cbn [accepts]. now apply N.eqb_neq.
Qed.

(** The text matched by the pattern is itself a complete move line. *)
Lemma scan_move_prefix s caps rest :
  scan_move s = Some (caps, rest) ->
  exists m, s = m ++ rest /\ scan_move m = Some (caps, []).
Proof.
  unfold scan_move at 1.
  destruct (expect_all _ s) as [s0|] eqn:E0; [|discriminate].
  destruct (scan_numeral (skip _ s0)) as [[g1 r1]|] eqn:N1; [|discriminate].
  destruct (expect comma r1) as [s1|] eqn:E1; [|discriminate].
  destruct (scan_numeral (skip _ s1)) as [[g2 r2]|] eqn:N2; [|discriminate].
  destruct (expect comma r2) as [s2|] eqn:E2; [|discriminate].
  destruct (scan_numeral (skip _ s2)) as [[g3 r3]|] eqn:N3; [|discriminate].
  intros [= <- <-].
  apply expect_all_split in E0. apply expect_split in E1, E2.
  apply scan_numeral_shape in N1 as [S1 H1], N2 as [S2 H2], N3 as [S3 H3].
  pose proof (taken_skip (Chr space) s0) as T0.
  pose proof (taken_skip (Chr space) s1) as T1.
  pose proof (taken_skip (Chr space) s2) as T2.
  exists (lit "# move," ++ taken (Chr space) s0 ++ g1
            ++ comma :: taken (Chr space) s1 ++ g2
            ++ comma :: taken (Chr space) s2 ++ g3).
  split.
  - rewrite E0. rewrite <- !app_assoc. f_equal.
    rewrite T0 at 1. f_equal. rewrite S1. f_equal. rewrite E1.
    cbn [app]. f_equal. rewrite <- !app_assoc.
    rewrite T1 at 1. f_equal. rewrite S2. f_equal. rewrite E2.
    cbn [app]. f_equal. rewrite <- !app_assoc.
    rewrite T2 at 1. f_equal. exact S3.
  - unfold scan_move. rewrite expect_all_self.
    rewrite (scan_spaces_numeral s0 g1 _ H1) by reflexivity.
    cbn [expect]. rewrite N.eqb_refl.
    rewrite (scan_spaces_numeral s1 g2 _ H2) by reflexivity.
    cbn [expect]. rewrite N.eqb_refl.
    rewrite <- (app_nil_r g3) at 1.
    rewrite (scan_spaces_numeral s2 g3 [] H3) by reflexivity.
    reflexivity.
Qed.

(** When a line is a complete move line giving [Move x y z], the same
    line followed by any text that does not lengthen its last numeral
    (text not starting with a digit or a point, such as [ extra]) is
    matched with the same three groups, the text being left over, and is
    parsed to the same [Move x y z]. *)
Lemma appended_text_keeps_the_move n p t caps x y z
        (Hmatch : move_match p = Some (caps, []))
        (Hmove : parse_line n p = Append (Move x y z))
        (Htext : extends_numeral t = false) :
  move_match (strip (p ++ t)) = Some (caps, rstrip t)
  /\ parse_line n (p ++ t) = Append (Move x y z).
Proof.
  pose proof (strip_matched_then_text p caps t Hmatch) as Es.
  pose proof (strip_matched_then_text p caps [] Hmatch) as Ep.
  rewrite app_nil_r in Ep. cbn [rstrip] in Ep. rewrite app_nil_r in Ep.
  assert (Hb : blank_or_comment p = false).
  { destruct (blank_or_comment p) eqn:E; [|reflexivity].
    rewrite parse_line_unfold, E in Hmove. discriminate. }
  assert (Hm : move_match (strip (p ++ t)) = Some (caps, rstrip t)).
  { rewrite Es, move_match_scan.
    rewrite move_match_scan in Hmatch.
    apply (scan_move_app p caps [] (rstrip t) Hmatch).
    now apply extends_numeral_rstrip. }
  split; [exact Hm|].
  rewrite parse_line_unfold in Hmove. rewrite Hb, Ep, Hmatch in Hmove.
  rewrite parse_line_unfold.
  rewrite (matched_not_blank_or_comment p caps [] t Hmatch Hb Es), Hm.
  destruct (x0 <- coordinate caps 1;; y0 <- coordinate caps 2;;
            z0 <- coordinate caps 3;; Ok (Move x0 y0 z0)) as [i|e];
    [exact Hmove|].
  destruct (is_value_error e); discriminate.
Qed.

Lemma matched_line_not_skipped line caps rest :
  move_match (strip line) = Some (caps, rest) -> blank_or_comment line = false.
Proof.
  rewrite move_match_scan. intro H.
  destruct (scan_move_split _ _ _ H) as (q & g3 & E & _).
  unfold blank_or_comment. rewrite E. reflexivity.
Qed.

(** C10. The pattern is matched at the head of the line.  Whatever
    text [rest] follows the match, the line is parsed to the [Move] given
    by the three groups; the matched part alone is a complete move line
    with the same groups and the same [Move], so the trailing text changes
    nothing: it yields no warning and no [Command]. *)
Theorem trailing_text_is_discarded n line caps rest x y z
        (Hmatch : move_match (strip line) = Some (caps, rest))
        (Hx : coordinate caps 1 = Ok x)
        (Hy : coordinate caps 2 = Ok y)
        (Hz : coordinate caps 3 = Ok z) :
  parse_line n line = Append (Move x y z)
  /\ exists m,
      strip line = m ++ rest
      /\ move_match m = Some (caps, [])
      /\ parse_line n m = Append (Move x y z).
Proof.
  split.
  - rewrite parse_line_unfold, (matched_line_not_skipped _ _ _ Hmatch), Hmatch.
    now rewrite Hx, Hy, Hz.
  - pose proof Hmatch as Hs. rewrite move_match_scan in Hs.
    destruct (scan_move_prefix _ _ _ Hs) as (m & Em & Hm).
    rewrite <- move_match_scan in Hm.
    exists m. repeat split; try assumption.
    pose proof (strip_matched_then_text m caps [] Hm) as Ep.
    rewrite app_nil_r in Ep. cbn [rstrip] in Ep. rewrite app_nil_r in Ep.
    rewrite <- Ep in Hm.
    rewrite parse_line_unfold, (matched_line_not_skipped _ _ _ Hm), Hm.
    now rewrite Hx, Hy, Hz.
Qed.

Lemma trailing_text_is_discarded_witness :
  move_match (strip (lit "# move, 1, 2, 3 extra"))
  = Some ([lit "1"; lit "2"; lit "3"], lit " extra")
  /\ parse_line 7 (lit "# move, 1, 2, 3 extra") = Append (Move 1 2 3).
Proof.
  split; [reflexivity|].
  exact (proj1 (trailing_text_is_discarded 7 (lit "# move, 1, 2, 3 extra")
                  [lit "1"; lit "2"; lit "3"] (lit " extra") 1 2 3
                  eq_refl eq_refl eq_refl eq_refl)).
Defined.

Example move_with_more_digits_appended :
  parse_line 1 (lit "# move, 1, 2, 3" ++ lit "4.5.6 extra")
  = Append (Move 1 2 34).
Proof. reflexivity. Qed.

(** ** Numerals short enough to be truncated exactly *)

Lemma round_half_even_cases p q :
  round_half_even p q = p / q
  \/ (round_half_even p q = p / q + 1 /\ q <= 2 * (p mod q)).
Proof.
  unfold round_half_even.
  destruct (2 * (p mod q) ?= q) eqn:C.
  - apply Z.compare_eq in C. destruct (Z.even (p / q)); [left|right]; lia.
  - now left.
  - apply Z.compare_gt_iff in C. right. lia.
Qed.

(** Rounding [p / q] at a scale [E] finer than [q / 2] and cutting the
    scale off again gives the integer part of [p / q]. *)
Lemma round_then_cut p q E :
  0 <= p -> 0 < q -> 0 < E -> q < 2 * E ->
  round_half_even (p * E) q / E = p / q.
Proof.
  intros Hp Hq HE Hlt.
  pose proof (Z.div_mod p q ltac:(lia)) as Dp.
  pose proof (Z.mod_pos_bound p q Hq) as Rp.
  pose proof (Z.div_mod (p * E) q ltac:(lia)) as Dm.
  pose proof (Z.mod_pos_bound (p * E) q Hq) as Rm.
  set (n := p / q) in *. set (r0 := p mod q) in *.
  set (d := (p * E) / q) in *. set (r := (p * E) mod q) in *.
  assert (Hn : 0 <= n) by (apply Z.div_pos; lia).
  assert (Hlo : n * E <= d) by nia.
  assert (Hhi : d < (n + 1) * E) by nia.
  destruct (round_half_even_cases (p * E) q) as [->|[-> Hr]]; fold d.
  - symmetry. apply (Z.div_unique d E n (d - n * E)); lia.
  - fold r in Hr. assert (d + 1 < (n + 1) * E) by nia.
    symmetry. apply (Z.div_unique (d + 1) E n (d + 1 - n * E)); lia.
Qed.

Lemma binade_lower p q :
  0 < p -> 0 < q ->
  if 0 <=? binade p q then q * 2 ^ binade p q <= p
  else q <= p * 2 ^ (- binade p q).
Proof.
  intros Hp Hq. unfold binade.
  pose proof (Z.log2_spec p Hp) as [Lp Up].
  pose proof (Z.log2_spec q Hq) as [Lq Uq].
  pose proof (Z.log2_nonneg p) as Np. pose proof (Z.log2_nonneg q) as Nq.
  replace (Z.succ (Z.log2 q)) with (Z.log2 q + 1) in Uq by lia.
  set (lp := Z.log2 p) in *. set (lq := Z.log2 q) in *.
  set (l := lp - lq).
  destruct (0 <=? l) eqn:Hl.
  - pose proof Hl as Hl'. apply Z.leb_le in Hl'.
    destruct (q * 2 ^ l <=? p) eqn:Ha.
    + rewrite Hl. now apply Z.leb_le in Ha.
    + destruct (0 <=? l - 1) eqn:Hl1.
      * apply Z.leb_le in Hl1.
        assert (E : 2 ^ lp = 2 ^ (lq + 1) * 2 ^ (l - 1)).
        { rewrite <- Z.pow_add_r by lia. f_equal. lia. }
        assert (0 < 2 ^ (l - 1)) by (apply Z.pow_pos_nonneg; lia).
        nia.
      * apply Z.leb_gt in Hl1. assert (l = 0) by lia.
        replace (- (l - 1)) with 1 by lia. change (2 ^ 1) with 2.
        assert (E : lp = lq) by lia. rewrite E in Lp.
        rewrite Z.pow_add_r in Uq by lia. change (2 ^ 1) with 2 in Uq. lia.
  - pose proof Hl as Hl'. apply Z.leb_gt in Hl'.
    destruct (q <=? p * 2 ^ (- l)) eqn:Ha.
    + rewrite Hl. now apply Z.leb_le in Ha.
    + assert (Hl1 : (0 <=? l - 1) = false) by (apply Z.leb_gt; lia).
      rewrite Hl1.
      assert (E : 2 ^ (lq + 1) = 2 ^ lp * 2 ^ (- (l - 1))).
      { rewrite <- Z.pow_add_r by lia. f_equal. lia. }
      assert (0 < 2 ^ (- (l - 1))) by (apply Z.pow_pos_nonneg; lia).
      nia.
Qed.

(** When the digits of a numeral make a number below [2^53], [int] of
    its [float] is the integer part of the numeral itself, towards zero:
    the rounding to a double never reaches the next integer. *)
Lemma short_value_truncates neg p q :
  0 <= p < 2 ^ 53 -> 0 < q ->
  py_int (nearest_double neg p q) = Ok (if neg then - (p / q) else p / q).
Proof.
  intros [Hp Hp53] Hq. unfold nearest_double.
  destruct (Z.eqb_spec p 0) as [->|Hp0].
  { cbn [py_int Z.leb Z.compare]. rewrite Z.div_0_l by lia. now destruct neg. }
  pose proof (binade_lower p q ltac:(lia) Hq) as Hb.
  set (b := binade p q) in *.
  set (e := Z.max (b - 52) (-1074)).
  assert (H53 : 2 ^ 53 = 2 * 2 ^ 52) by reflexivity.
  destruct (0 <=? e) eqn:He.
  - apply Z.leb_le in He.
    assert (Hb52 : 52 <= b) by lia.
    assert (Hbb : (0 <=? b) = true) by (apply Z.leb_le; lia).
    rewrite Hbb in Hb.
    assert (Hpow : 2 ^ 52 <= 2 ^ b) by (apply Z.pow_le_mono_r; lia).
    assert (Eb : b = 52).
    { destruct (Z.eq_dec b 52) as [|Hne]; [assumption|exfalso].
      assert (2 ^ 53 <= 2 ^ b) by (apply Z.pow_le_mono_r; lia). nia. }
    assert (Ee : e = 0) by lia. rewrite Eb in Hb.
    assert (Eq1 : q = 1) by nia.
    rewrite Ee, Eq1. change (1 * 2 ^ 0) with 1.
    assert (Em : round_half_even p 1 = p).
    { destruct (round_half_even_cases p 1) as [->|[_ Hr]].
      - apply Z.div_1_r.
      - rewrite Z.mod_1_r in Hr. lia. }
    rewrite Em, Z.div_1_r. change (2 ^ 0) with 1. rewrite Z.mul_1_r.
    assert (Hsmall : (2 ^ 1024 <=? p) = false).
    { apply Z.leb_gt. assert (2 ^ 53 <= 2 ^ 1024) by (apply Z.pow_le_mono_r; lia).
      lia. }
    rewrite Hsmall. cbn [andb py_int Z.leb Z.compare].
    change (2 ^ 0) with 1. now rewrite Z.mul_1_r.
  - cbn [andb py_int]. rewrite He. f_equal.
    apply Z.leb_gt in He.
    set (E := 2 ^ (- e)).
    assert (HE : 0 < E) by (apply Z.pow_pos_nonneg; lia).
    assert (Hcut : round_half_even (p * E) q / E = p / q).
    { destruct (Z_lt_le_dec q (2 * E)) as [Hlt|Hge].
      - now apply round_then_cut.
      - assert (Ee : e = -1074 /\ b - 52 < -1074).
        { destruct (Z.max_spec (b - 52) (-1074)) as [[Hlt Hmax]|[Hle Hmax]];
            fold e in Hmax; [lia|exfalso].
          destruct (0 <=? b) eqn:Hb0.
          - apply Z.leb_le in Hb0.
            assert (Epow : 2 ^ 52 = 2 ^ b * E).
            { unfold E. rewrite <- Z.pow_add_r by lia. f_equal. lia. }
            assert (0 < 2 ^ b) by (apply Z.pow_pos_nonneg; lia). nia.
          - apply Z.leb_gt in Hb0.
            assert (Epow : E = 2 ^ 52 * 2 ^ (- b)).
            { unfold E. rewrite <- Z.pow_add_r by lia. f_equal. lia. }
            assert (0 < 2 ^ (- b)) by (apply Z.pow_pos_nonneg; lia). nia. }
        destruct Ee as [Ee _].
        assert (HEbig : 2 ^ 53 <= E).
        { unfold E. rewrite Ee. apply Z.pow_le_mono_r; lia. }
        rewrite (Z.div_small p q) by lia.
        apply Z.div_small.
        pose proof (round_half_even_nonneg (p * E) q ltac:(nia) Hq).
        split; [assumption|].
        pose proof (Z.div_mod (p * E) q ltac:(lia)) as Dm.
        pose proof (Z.mod_pos_bound (p * E) q Hq) as Rm.
        assert (0 <= p * E / q) by (apply Z.div_pos; nia).
        assert (2 * (p * E / q) <= p) by nia.
        destruct (round_half_even_cases (p * E) q) as [->|[-> _]]; lia. }
    rewrite Hcut. reflexivity.
Qed.

Example twenty_nines_round_up :
  parse_line 1 (lit "# move, 0.99999999999999999999, 0, 0")
  = Append (Move 1 0 0).
Proof. vm_compute. reflexivity. Qed.

Lemma decimal_value_bound c d : decimal c = Some d -> 0 <= d <= 9.
Proof.
  unfold decimal. generalize decimal_zeros.
  induction l as [|z zs IH]; [discriminate|].
  cbn [decimal_in]. destruct ((z <=? c) && (c <? z + 10))%N eqn:E; [|exact IH].
  apply andb_true_iff in E as [E1 E2].
  apply N.leb_le in E1. apply N.ltb_lt in E2.
  intros [= <-]. lia.
Qed.

Lemma digit_of_bound c : 0 <= digit_of c <= 9.
Proof.
  unfold digit_of. destruct (decimal c) as [d|] eqn:E; [|lia].
  now apply decimal_value_bound in E.
Qed.

Lemma digits_from_shift ds acc :
  digits_from acc ds = acc * 10 ^ Z.of_nat (length ds) + digits_value ds.
Proof.
  unfold digits_value. revert acc.
  induction ds as [|c ds IH]; intro acc.
  - cbn. lia.
  - cbn [digits_from fold_left length].
    fold (digits_from (acc * 10 + digit_of c) ds).
    fold (digits_from (0 * 10 + digit_of c) ds).
    rewrite (IH (acc * 10 + digit_of c)), (IH (0 * 10 + digit_of c)).
    rewrite Nat2Z.inj_succ, Z.pow_succ_r by lia. lia.
Qed.

Lemma digits_value_bound ds : 0 <= digits_value ds < 10 ^ Z.of_nat (length ds).
Proof.
  induction ds as [|c ds IH]; [cbn; lia|].
  unfold digits_value. cbn [digits_from fold_left length].
  fold (digits_from (0 * 10 + digit_of c) ds).
  rewrite digits_from_shift, Nat2Z.inj_succ, Z.pow_succ_r by lia.
  pose proof (digit_of_bound c). nia.
Qed.

Lemma take_digits_exact ds rest acc n :
  all_decimal ds ->
  take_digits (ds ++ rest) acc n
  = take_digits rest (digits_from acc ds) (n + length ds).
Proof.
  intro H. revert acc n.
  induction H as [|c ds Hc Hds IH]; intros acc n.
  - cbn [app digits_from fold_left length]. now rewrite Nat.add_0_r.
  - cbn [app take_digits digits_from fold_left length].
    unfold isdecimal in Hc. unfold digit_of.
    destruct (decimal c) as [d|] eqn:Ed; [|discriminate].
    rewrite IH. unfold digits_from. now rewrite Nat.add_succ_r.
Qed.

(** The double [float] returns for a numeral with a point (or without
    fraction digits): the one nearest to its digits over the power of ten
    of its fraction length. *)
Lemma py_float_exact sg ds1 pt ds2 :
  (sg = [] \/ sg = [minus]) -> ds1 <> [] ->
  all_decimal ds1 -> all_decimal ds2 ->
  (pt = [dot] \/ (pt = [] /\ ds2 = [])) ->
  py_float (sg ++ ds1 ++ pt ++ ds2)
  = Ok (nearest_double (match sg with [] => false | _ => true end)
          (digits_from (digits_value ds1) ds2)
          (10 ^ Z.of_nat (length ds2))).
Proof.
  intros Hsg Hne H1 H2 Hpt.
  assert (Hg : is_numeral (sg ++ ds1 ++ pt ++ ds2)).
  { exists sg, ds1, pt, ds2. repeat split; try assumption.
    destruct Hpt as [->|[-> _]]; auto. }
  unfold py_float. rewrite (strip_no_space _ (numeral_no_space _ Hg)).
  assert (Hsign : take_sign (sg ++ ds1 ++ pt ++ ds2)
                  = (match sg with [] => false | _ => true end,
                     ds1 ++ pt ++ ds2)).
  { destruct Hsg as [->| ->]; [|reflexivity].
    destruct H1 as [|c ds1 Hc _]; [contradiction|].
    cbn [app take_sign].
    destruct (N.eqb_spec c minus) as [->|]; [vm_compute in Hc; discriminate|].
    destruct (N.eqb_spec c 43) as [->|]; [vm_compute in Hc; discriminate|].
    reflexivity. }
  rewrite Hsign.
  assert (Hlen : (0 < length ds1)%nat) by (destruct ds1; [contradiction|cbn; lia]).
  rewrite (take_digits_exact ds1 (pt ++ ds2) 0 0 H1).
  fold (digits_value ds1).
  destruct Hpt as [->|[-> ->]].
  - cbn [app take_digits]. change (decimal dot) with (@None Z).
    cbn [take_dot N.eqb dot Pos.eqb].
    rewrite <- (app_nil_r ds2) at 1.
    rewrite (take_digits_exact ds2 [] _ 0 H2). cbn [take_digits].
    destruct (Nat.eqb_spec (0 + length ds1 + (0 + length ds2)) 0) as [E0|_];
      [lia|reflexivity].
  - cbn [app take_digits take_dot length digits_from fold_left].
    destruct (Nat.eqb_spec (0 + length ds1 + 0) 0) as [E0|_];
      [lia|reflexivity].
Qed.

(** A numeral of at most 15 digits is cut at its point: [int(float(g))]
    is the integer written before the point, with the sign of the
    numeral.  (With more digits the double may round up to the next
    integer first, as for twenty nines after [0.].) *)
Theorem short_numeral_is_cut_at_the_point sg ds1 pt ds2 :
  (sg = [] \/ sg = [minus]) -> ds1 <> [] ->
  all_decimal ds1 -> all_decimal ds2 ->
  (pt = [dot] \/ (pt = [] /\ ds2 = [])) ->
  (length ds1 + length ds2 <= 15)%nat ->
  (f <- py_float (sg ++ ds1 ++ pt ++ ds2) ;; py_int f)
  = Ok (match sg with
        | [] => digits_value ds1
        | _ => - digits_value ds1
        end).
Proof.
  intros Hsg Hne H1 H2 Hpt Hlen.
  rewrite (py_float_exact sg ds1 pt ds2) by assumption. cbn [bind].
  pose proof (digits_value_bound ds1) as B1.
  pose proof (digits_value_bound ds2) as B2.
  set (k := Z.of_nat (length ds2)) in *.
  set (j := Z.of_nat (length ds1)) in *.
  assert (Hk : 0 < 10 ^ k) by (apply Z.pow_pos_nonneg; lia).
  rewrite digits_from_shift. fold k.
  assert (Hsmall : digits_value ds1 * 10 ^ k + digits_value ds2 < 2 ^ 53).
  { assert (10 ^ j * 10 ^ k <= 10 ^ 15).
    { rewrite <- Z.pow_add_r by lia. apply Z.pow_le_mono_r; lia. }
    assert (10 ^ 15 < 2 ^ 53) by reflexivity. nia. }
  rewrite short_value_truncates by nia.
  assert (E : (digits_value ds1 * 10 ^ k + digits_value ds2) / 10 ^ k
              = digits_value ds1).
  { symmetry. apply (Z.div_unique _ _ _ (digits_value ds2)); lia. }
  rewrite E. now destruct sg.
Qed.

Example short_numerals_cut :
  (f <- py_float (lit "-5.2") ;; py_int f) = Ok (-5)
  /\ digits_value (lit "5") = 5.
Proof. split; reflexivity. Qed.

(** * Further properties of the code *)

(** ** The parser, line by line *)

Lemma rstrip_blank ws : forallb isspace ws = true -> rstrip ws = [].
Proof.
  induction ws as [|c ws IH]; [reflexivity|].
  cbn [forallb rstrip]. intro H. apply andb_true_iff in H as [Hc Hws].
  now rewrite (IH Hws), Hc.
Qed.

Lemma rstrip_app_blank s ws :
  forallb isspace ws = true -> rstrip (s ++ ws) = rstrip s.
Proof.
  intro H. induction s as [|c s IH]; [now apply rstrip_blank|].
  cbn [app rstrip]. now rewrite IH.
Qed.

Lemma lstrip_blank_app ws s :
  forallb isspace ws = true -> lstrip (ws ++ s) = lstrip s.
Proof.
  induction ws as [|c ws IH]; [reflexivity|].
  cbn [forallb app lstrip]. intro H. apply andb_true_iff in H as [Hc Hws].
  rewrite Hc. now apply IH.
Qed.

Lemma lstrip_app s t :
  lstrip (s ++ t) = match lstrip s with [] => lstrip t | u => u ++ t end.
Proof.
  induction s as [|c s IH]; [reflexivity|].
  cbn [app lstrip]. destruct (isspace c); [exact IH|reflexivity].
Qed.

Lemma lstrip_head s c u : lstrip s = c :: u -> isspace c = false.
Proof.
  induction s as [|d s IH]; [discriminate|].
  cbn [lstrip]. destruct (isspace d) eqn:E; [exact IH|].
  now intros [= <- _].
Qed.

Lemma rstrip_solid_head c u :
  isspace c = false -> exists r, rstrip (c :: u) = c :: r.
Proof.
  intro Hc. cbn [rstrip]. rewrite Hc. destruct (rstrip u); eauto.
Qed.

Lemma rstrip_idem s : rstrip (rstrip s) = rstrip s.
Proof.
  induction s as [|c s IH]; [reflexivity|].
  cbn [rstrip]. destruct (rstrip s) as [|d r] eqn:E.
  - destruct (isspace c) eqn:Hc; [reflexivity|]. cbn [rstrip]. now rewrite Hc.
  - change (rstrip (c :: d :: r)) with
      (match rstrip (d :: r) with
       | [] => if isspace c then [] else [c]
       | r0 => c :: r0
       end).
    now rewrite IH.
Qed.

Lemma strip_idem s : strip (strip s) = strip s.
Proof.
  unfold strip. destruct (lstrip s) as [|c u] eqn:E; [reflexivity|].
  apply lstrip_head in E.
  destruct (rstrip_solid_head c u E) as (r & Er).
  rewrite Er. cbn [lstrip]. rewrite E, <- Er. apply rstrip_idem.
Qed.

Lemma strip_blank_around ws1 s ws2 :
  forallb isspace ws1 = true -> forallb isspace ws2 = true ->
  strip (ws1 ++ s ++ ws2) = strip s.
Proof.
  intros H1 H2. unfold strip.
  rewrite lstrip_blank_app by assumption. rewrite lstrip_app.
  destruct (lstrip s) as [|c u].
  - rewrite <- (app_nil_r ws2), lstrip_blank_app by assumption. reflexivity.
  - now apply rstrip_app_blank.
Qed.

Lemma parse_line_of_stripped n l l' :
  strip l = strip l' -> parse_line n l = parse_line n l'.
Proof. unfold parse_line. now intros ->. Qed.

(** X1. White space around a line never matters to the parser. *)
Theorem blanks_around_a_line_are_ignored n ws1 line ws2
        (H1 : forallb isspace ws1 = true)
        (H2 : forallb isspace ws2 = true) :
  parse_line n (ws1 ++ line ++ ws2) = parse_line n line
  /\ parse_line n (strip line) = parse_line n line.
Proof.
  split; apply parse_line_of_stripped.
  - now apply strip_blank_around.
  - apply strip_idem.
Qed.

Lemma blanks_around_a_line_are_ignored_witness :
  forallb isspace (lit "  ") = true
  /\ forallb isspace [9%N; 13%N; 10%N] = true
  /\ parse_line 3 (lit "  " ++ lit "# move, 4, 5, 6" ++ [9%N; 13%N; 10%N])
     = Append (Move 4 5 6).
Proof.
  split; [reflexivity|]. split; [reflexivity|].
  rewrite (proj1 (blanks_around_a_line_are_ignored 3 (lit "  ")
                    (lit "# move, 4, 5, 6") [9%N; 13%N; 10%N]
                    eq_refl eq_refl)).
  reflexivity.
Defined.

Lemma abort_is_overflow n line e :
  parse_line n line = Abort e -> e = OverflowError.
Proof.
  intro H. destruct (blank_or_comment line) eqn:Hb.
  { rewrite parse_line_unfold, Hb in H. discriminate. }
  destruct (move_match (strip line)) as [[caps rest]|] eqn:Hm.
  2:{ rewrite parse_line_unfold, Hb, Hm in H. discriminate. }
  destruct (matching_line_effect n line caps rest Hb Hm)
    as (g1 & g2 & g3 & f1 & f2 & f3 & _ & _ & _ & _ & _ & _ & _ & C).
  destruct C as [(x & y & z & P & _)|[P _]]; rewrite P in H;
    [discriminate|now injection H].
Qed.

Lemma parse_line_number_irrelevant n m line :
  parse_line n line = parse_line m line.
Proof.
  pose proof (parse_line_never_warns n line) as Hn.
  pose proof (parse_line_never_warns m line) as Hm.
  rewrite !parse_line_unfold in *.
  destruct (blank_or_comment line); [reflexivity|].
  destruct (move_match (strip line)) as [[caps rest]|]; [|reflexivity].
  destruct (x <- coordinate caps 1;; y <- coordinate caps 2;;
            z <- coordinate caps 3;; Ok (Move x y z)) as [i|e];
    [reflexivity|].
  destruct (is_value_error e); [|reflexivity].
  now destruct (Hn (warning_text n (strip line))).
Qed.

Lemma parse_lines_linewise n lines :
  snd (parse_lines n lines [] [])
  = if existsb line_aborts lines then Raise OverflowError
    else Ok (flat_map line_instruction lines).
Proof.
  revert n. induction lines as [|l lines IH]; intro n; [reflexivity|].
  cbn [parse_lines existsb flat_map]. unfold line_aborts at 1, line_instruction at 1.
  rewrite (parse_line_number_irrelevant 1 n l).
  destruct (parse_line n l) eqn:E; cbn [orb app].
  - apply IH.
  - rewrite parse_lines_from, IH.
    now destruct (existsb line_aborts lines).
  - now apply parse_line_never_warns in E.
  - apply abort_is_overflow in E. now subst.
Qed.

(** X2. Whatever a file that opens holds, the parser prints nothing,
    also when its bytes stop being UTF-8: the warning about invalid
    coordinates cannot come out. *)
Theorem readable_file_prints_nothing lines decodes filepath :
  fst (parse_commands_from_file (Opened lines decodes) filepath) = []
  /\ forall n line w, parse_line n line <> Warn w.
Proof.
  split; [|intros; apply parse_line_never_warns].
  unfold parse_commands_from_file.
  pose proof (parse_lines_prints_nothing 1 lines [] []) as H.
  now destruct (parse_lines 1 lines [] []).
Qed.

(** X3. The parser works line by line and keeps no memory from one
    line to the next: on the lines the iteration yields, its result is the
    instructions of the lines, in order, at most one per line, unless some
    line holds a numeral too large for a double (or the iteration itself
    then raises [UnicodeDecodeError]), and the line numbers play no part. *)
Theorem parser_is_linewise lines decodes filepath :
  snd (parse_commands_from_file (Opened lines decodes) filepath)
  = (if existsb line_aborts lines then Raise OverflowError
     else if decodes then Ok (Some (flat_map line_instruction lines))
          else Raise UnicodeDecodeError)
  /\ (length (flat_map line_instruction lines) <= length lines)%nat
  /\ forall n m line, parse_line n line = parse_line m line.
Proof.
  split; [|split].
  - unfold parse_commands_from_file.
    pose proof (parse_lines_linewise 1 lines) as H.
    destruct (parse_lines 1 lines [] []) as [out r]. cbn [snd] in *.
    rewrite H. now destruct (existsb line_aborts lines).
  - induction lines as [|l lines IH]; [reflexivity|].
    cbn [flat_map length]. rewrite length_app.
    unfold line_instruction at 1. destruct (parse_line 1 l); cbn [length]; lia.
  - intros. apply parse_line_number_irrelevant.
Qed.

Lemma command_line_is_clean n line t :
  parse_line n line = Append (Command t) -> clean_instruction (Command t).
Proof.
  rewrite parse_line_unfold.
  destruct (blank_or_comment line) eqn:Hb; [discriminate|].
  destruct (move_match (strip line)) as [[caps rest]|] eqn:Hm.
  - destruct (coordinate caps 1) as [x|e1]; cbn [bind];
      [|destruct (is_value_error e1); discriminate].
    destruct (coordinate caps 2) as [y|e2]; cbn [bind];
      [|destruct (is_value_error e2); discriminate].
    destruct (coordinate caps 3) as [z|e3]; cbn [bind];
      [|destruct (is_value_error e3)]; discriminate.
  - intros [= <-]. unfold blank_or_comment in Hb. cbn [clean_instruction].
    destruct (strip line) as [|c u] eqn:E; [discriminate|].
    repeat split; try assumption; [discriminate|].
    rewrite <- E. apply strip_idem.
Qed.

(** X4. Every [Command] the parser returns holds a text that is
    trimmed and not empty, does not start with [# comment] and is not a
    move line. *)
Theorem parsed_commands_are_clean file filepath ins
        (Hparsed : snd (parse_commands_from_file file filepath)
                   = Ok (Some ins)) :
  Forall clean_instruction ins.
Proof.
  destruct file as [|e|lines decodes]; try discriminate.
  unfold parse_commands_from_file in Hparsed.
  pose proof (parse_lines_linewise 1 lines) as H.
  destruct (parse_lines 1 lines [] []) as [out r]. cbn [snd] in *. subst r.
  destruct (existsb line_aborts lines); [discriminate|].
  cbn [bind] in Hparsed. destruct decodes; [|discriminate].
  injection Hparsed as <-.
  apply Forall_forall. intros i Hi.
  apply in_flat_map in Hi as (l & _ & Hl).
  unfold line_instruction in Hl.
  destruct (parse_line 1 l) as [|j|w|e] eqn:E; try contradiction.
  destruct Hl as [->|[]].
  destruct i as [x y z|t]; [exact I|].
  now apply (command_line_is_clean 1 l).
Qed.

Lemma parsed_commands_are_clean_witness :
  snd (parse_commands_from_file
         (Opened [lit "  say hi  "; lit ""; lit "# move, 1, 2, 3"] true)
         (lit "cb.mcfunction"))
  = Ok (Some [Command (lit "say hi"); Move 1 2 3])
  /\ Forall clean_instruction [Command (lit "say hi"); Move 1 2 3].
Proof.
  assert (H : snd (parse_commands_from_file
                     (Opened [lit "  say hi  "; lit ""; lit "# move, 1, 2, 3"]
                             true)
                     (lit "cb.mcfunction"))
              = Ok (Some [Command (lit "say hi"); Move 1 2 3]))
    by (vm_compute; reflexivity).
  split; [exact H|].
  exact (parsed_commands_are_clean _ _ _ H).
Defined.

(** ** The language of the move pattern *)

Lemma taken_spaces s : all_spaces (taken (Chr space) s).
Proof.
  eapply Forall_impl; [|apply (taken_accepted (Chr space))].
  intros c Hc. cbn [accepts] in Hc. now apply N.eqb_eq in Hc.
Qed.

Lemma scan_move_decompose s caps rest :
  scan_move s = Some (caps, rest) ->
  exists sp0 g1 sp1 g2 sp2 g3,
    caps = [g1; g2; g3]
    /\ s = move_line sp0 g1 sp1 g2 sp2 g3 ++ rest
    /\ all_spaces sp0 /\ all_spaces sp1 /\ all_spaces sp2
    /\ is_numeral g1 /\ is_numeral g2 /\ is_numeral g3.
Proof.
  unfold scan_move.
  destruct (expect_all _ s) as [s0|] eqn:E0; [|discriminate].
  destruct (scan_numeral (skip _ s0)) as [[g1 r1]|] eqn:N1; [|discriminate].
  destruct (expect comma r1) as [s1|] eqn:E1; [|discriminate].
  destruct (scan_numeral (skip _ s1)) as [[g2 r2]|] eqn:N2; [|discriminate].
  destruct (expect comma r2) as [s2|] eqn:E2; [|discriminate].
  destruct (scan_numeral (skip _ s2)) as [[g3 r3]|] eqn:N3; [|discriminate].
  intros [= <- <-].
  apply expect_all_split in E0. apply expect_split in E1, E2.
  apply scan_numeral_shape in N1 as [S1 H1], N2 as [S2 H2], N3 as [S3 H3].
  pose proof (taken_skip (Chr space) s0) as T0.
  pose proof (taken_skip (Chr space) s1) as T1.
  pose proof (taken_skip (Chr space) s2) as T2.
  exists (taken (Chr space) s0), g1, (taken (Chr space) s1), g2,
         (taken (Chr space) s2), g3.
  split; [reflexivity|]. split.
  - unfold move_line. rewrite E0. rewrite <- !app_assoc. f_equal.
    rewrite T0 at 1. f_equal. rewrite S1. f_equal. rewrite E1.
    cbn [app]. f_equal. rewrite <- !app_assoc.
    rewrite T1 at 1. f_equal. rewrite S2. f_equal. rewrite E2.
    cbn [app]. f_equal. rewrite <- !app_assoc.
    rewrite T2 at 1. f_equal. exact S3.
  - repeat split; try assumption; apply taken_spaces.
Qed.

Lemma scan_after_spaces sp g u :
  all_spaces sp -> is_numeral g -> extends_numeral u = false ->
  scan_numeral (skip (Chr space) (sp ++ g ++ u)) = Some (g, u).
Proof.
  intros Hsp Hg Hu. destruct (numeral_head g Hg) as (c & g' & -> & Hc).
  rewrite skip_run.
  - cbn [app skip accepts]. destruct (N.eqb_spec c space); [contradiction|].
    apply (scan_numeral_app (c :: g') (c :: g') [] u);
      [now apply scan_numeral_complete|assumption].
  - eapply Forall_impl; [|exact Hsp]. intros x ->. reflexivity.
Qed.

Lemma scan_move_line sp0 g1 sp1 g2 sp2 g3 rest :
  all_spaces sp0 -> all_spaces sp1 -> all_spaces sp2 ->
  is_numeral g1 -> is_numeral g2 -> is_numeral g3 ->
  extends_numeral rest = false ->
  scan_move (move_line sp0 g1 sp1 g2 sp2 g3 ++ rest)
  = Some ([g1; g2; g3], rest).
Proof.
  intros P0 P1 P2 H1 H2 H3 Hrest. unfold scan_move, move_line.
  rewrite <- !app_assoc. rewrite expect_all_self.
  cbn [app]. rewrite <- !app_assoc.
  rewrite (scan_after_spaces sp0 g1 _ P0 H1) by reflexivity.
  cbn [expect]. rewrite N.eqb_refl.
  cbn [app]. rewrite <- !app_assoc.
  rewrite (scan_after_spaces sp1 g2 _ P1 H2) by reflexivity.
  cbn [expect]. rewrite N.eqb_refl.
  now rewrite (scan_after_spaces sp2 g3 rest P2 H3 Hrest).
Qed.

(** X5. The texts [re.match] accepts for the move pattern are exactly
    [# move,] followed three times by spaces and a numeral (optional
    minus, digits, optional point, digits), the numerals separated by
    commas; the groups are the three numerals.  (Here for a rest that does
    not lengthen the last numeral, which is how the greedy match ends.) *)
Theorem move_pattern_language s g1 g2 g3 rest
        (Hrest : extends_numeral rest = false) :
  move_match s = Some ([g1; g2; g3], rest)
  <-> exists sp0 sp1 sp2,
      s = move_line sp0 g1 sp1 g2 sp2 g3 ++ rest
      /\ all_spaces sp0 /\ all_spaces sp1 /\ all_spaces sp2
      /\ is_numeral g1 /\ is_numeral g2 /\ is_numeral g3.
Proof.
  rewrite move_match_scan. split.
  - intro H. destruct (scan_move_decompose _ _ _ H)
      as (sp0 & h1 & sp1 & h2 & sp2 & h3 & E & Es & P0 & P1 & P2 & N1 & N2 & N3).
    injection E as <- <- <-. exists sp0, sp1, sp2. auto 10.
  - intros (sp0 & sp1 & sp2 & -> & P0 & P1 & P2 & N1 & N2 & N3).
    now apply scan_move_line.
Qed.

Lemma move_pattern_language_witness :
  extends_numeral (lit " # east") = false
  /\ move_match (move_line (lit "  ") (lit "-1.5") [] (lit "20") (lit " ")
                           (lit "3.") ++ lit " # east")
     = Some ([lit "-1.5"; lit "20"; lit "3."], lit " # east").
Proof.
  split; [reflexivity|].
  apply (proj2 (move_pattern_language _ (lit "-1.5") (lit "20") (lit "3.")
                  (lit " # east") eq_refl)).
  exists (lit "  "), [], (lit " ").
  split; [reflexivity|].
  repeat split; try (repeat constructor).
  - exists [minus], (lit "1"), [dot], (lit "5").
    repeat split; auto; try discriminate; repeat constructor.
  - exists [], (lit "20"), [], [].
    repeat split; auto; try discriminate; repeat constructor.
  - exists [], (lit "3"), [dot], [].
    repeat split; auto; try discriminate; repeat constructor.
Defined.

(** ** Move lines with short numerals *)

Lemma short_numeral_is_numeral a :
  short_numeral a -> is_numeral (numeral_text a).
Proof.
  intros (Hne & H1 & H2 & _). unfold numeral_text.
  exists (if negative a then [minus] else []), (whole a),
         (if pointed a then [dot] else []), (fraction a).
  repeat split; try assumption.
  - destruct (negative a); auto.
  - destruct (pointed a); auto.
Qed.

Lemma short_numeral_coordinate a :
  short_numeral a ->
  (f <- py_float (numeral_text a) ;; py_int f) = Ok (whole_value a).
Proof.
  intros (Hne & H1 & H2 & Hp & Hlen). unfold numeral_text, whole_value.
  rewrite short_numeral_is_cut_at_the_point; try assumption.
  - now destruct (negative a).
  - destruct (negative a); auto.
  - destruct (pointed a); [now left|right]. split; [reflexivity|now apply Hp].
Qed.

(** X6. A move line whose three numerals have at most 15 digits each is
    parsed to the [Move] of the integers written before their points, with
    their signs: the fraction digits are cut off, never rounded. *)
Theorem short_move_line_is_cut_at_the_points n sp0 a sp1 b sp2 c
        (P0 : all_spaces sp0) (P1 : all_spaces sp1) (P2 : all_spaces sp2)
        (Ha : short_numeral a) (Hb : short_numeral b) (Hc : short_numeral c) :
  parse_line n (move_line sp0 (numeral_text a) sp1 (numeral_text b)
                          sp2 (numeral_text c))
  = Append (Move (whole_value a) (whole_value b) (whole_value c)).
Proof.
  set (line := move_line _ _ _ _ _ _).
  assert (Hm : move_match line
               = Some ([numeral_text a; numeral_text b; numeral_text c], [])).
  { rewrite move_match_scan. rewrite <- (app_nil_r line).
    apply scan_move_line; auto using short_numeral_is_numeral. }
  pose proof (strip_matched_then_text line _ [] Hm) as Es.
  rewrite app_nil_r in Es. cbn [rstrip] in Es. rewrite app_nil_r in Es.
  assert (Hm' : move_match (strip line)
                = Some ([numeral_text a; numeral_text b; numeral_text c], []))
    by now rewrite Es.
  rewrite parse_line_unfold, (matched_line_not_skipped _ _ _ Hm'), Hm'.
  unfold coordinate. cbn [nth Nat.sub].
  rewrite (short_numeral_coordinate a Ha). cbn [bind].
  rewrite (short_numeral_coordinate b Hb). cbn [bind].
  rewrite (short_numeral_coordinate c Hc). reflexivity.
Qed.

Lemma short_move_line_is_cut_at_the_points_witness :
  parse_line 1 (lit "# move, 10.9,-5.2,  0") = Append (Move 10 (-5) 0).
Proof.
  refine (short_move_line_is_cut_at_the_points 1 (lit " ")
            {| negative := false; whole := lit "10"; pointed := true;
               fraction := lit "9" |}
            []
            {| negative := true; whole := lit "5"; pointed := true;
               fraction := lit "2" |}
            (lit "  ")
            {| negative := false; whole := lit "0"; pointed := false;
               fraction := [] |}
            _ _ _ _ _ _);
    try (repeat constructor; fail);
    (repeat split; cbn; try discriminate; try reflexivity;
     try lia; repeat constructor).
Defined.

(** ** Lines the parser cannot fail on *)

Lemma nearest_double_finite neg p q :
  0 <= p -> 0 < q -> p < 10 ^ 308 * q ->
  exists m e, nearest_double neg p q = Finite neg m e.
Proof.
  intros Hp Hq Hbound. unfold nearest_double.
  destruct (Z.eqb_spec p 0) as [->|Hp0]; [eauto|].
  pose proof (binade_lower p q ltac:(lia) Hq) as Hb.
  set (b := binade p q) in *.
  set (e := Z.max (b - 52) (-1074)).
  destruct (0 <=? e) eqn:He; [|cbn [andb]; eauto].
  apply Z.leb_le in He.
  assert (Hbb : (0 <=? b) = true) by (apply Z.leb_le; lia).
  rewrite Hbb in Hb.
  assert (Ee : e = b - 52) by lia.
  assert (Hpb : 0 < 2 ^ b) by (apply Z.pow_pos_nonneg; lia).
  assert (Hb1023 : b <= 1023).
  { destruct (Z_le_gt_dec b 1023) as [|Hgt]; [assumption|exfalso].
    assert (2 ^ 1024 <= 2 ^ b) by (apply Z.pow_le_mono_r; lia).
    assert (10 ^ 308 < 2 ^ 1024) by reflexivity. nia. }
  assert (He971 : 2 ^ e <= 2 ^ 971) by (apply Z.pow_le_mono_r; lia).
  assert (Hpe : 0 < 2 ^ e) by (apply Z.pow_pos_nonneg; lia).
  set (Q := q * 2 ^ e) in *.
  assert (HQ : 0 < Q) by (unfold Q; nia).
  pose proof (Z.div_mod p Q ltac:(lia)) as Dm.
  pose proof (Z.mod_pos_bound p Q HQ) as Rm.
  assert (Hd : 0 <= p / Q) by (apply Z.div_pos; lia).
  assert (Hm : round_half_even p Q <= p / Q + 1)
    by (destruct (round_half_even_cases p Q) as [->|[-> _]]; lia).
  assert (Hval : (p / Q) * 2 ^ e < 10 ^ 308).
  { assert ((p / Q) * 2 ^ e * q <= p).
    { replace (p / Q * 2 ^ e * q) with (Q * (p / Q)) by (unfold Q; ring). lia. }
    apply (Z.mul_lt_mono_pos_r q); lia. }
  assert (Hbig : 10 ^ 308 + 2 ^ 971 < 2 ^ 1024) by reflexivity.
  assert (Hfin : (2 ^ 1024 <=? round_half_even p Q * 2 ^ e) = false).
  { apply Z.leb_gt.
    apply Z.le_lt_trans with ((p / Q + 1) * 2 ^ e);
      [apply Z.mul_le_mono_nonneg_r; lia|lia]. }
  rewrite Hfin. cbn [andb]. eauto.
Qed.

Lemma numeral_normal_form g :
  is_numeral g ->
  exists sg ds1 pt ds2,
    g = sg ++ ds1 ++ pt ++ ds2
    /\ (sg = [] \/ sg = [minus]) /\ ds1 <> [] /\ all_decimal ds1
    /\ all_decimal ds2 /\ (pt = [dot] \/ (pt = [] /\ ds2 = [])).
Proof.
  intros (sg & ds1 & pt & ds2 & -> & Hsg & Hne & H1 & Hpt & H2).
  destruct Hpt as [->| ->].
  - exists sg, (ds1 ++ ds2), [], []. repeat split; auto.
    + cbn [app]. now rewrite !app_nil_r.
    + destruct ds1; [contradiction|discriminate].
    + apply Forall_app; auto.
    + constructor.
  - exists sg, ds1, [dot], ds2. repeat split; auto.
Qed.

Lemma numeral_up_to_308_converts g :
  is_numeral g -> (length g <= 308)%nat ->
  exists x, (f <- py_float g ;; py_int f) = Ok x.
Proof.
  intros Hg Hlen.
  destruct (numeral_normal_form g Hg)
    as (sg & ds1 & pt & ds2 & -> & Hsg & Hne & H1 & H2 & Hpt).
  rewrite py_float_exact by assumption. cbn [bind].
  pose proof (digits_value_bound ds1) as B1.
  pose proof (digits_value_bound ds2) as B2.
  rewrite !length_app in Hlen.
  set (k := Z.of_nat (length ds2)) in *.
  set (j := Z.of_nat (length ds1)) in *.
  assert (Hk : 0 < 10 ^ k) by (apply Z.pow_pos_nonneg; lia).
  assert (Hj : 10 ^ j <= 10 ^ 308) by (apply Z.pow_le_mono_r; lia).
  destruct (nearest_double_finite
              (match sg with [] => false | _ => true end)
              (digits_from (digits_value ds1) ds2) (10 ^ k))
    as (m & e & ->).
  - rewrite digits_from_shift. fold k. nia.
  - assumption.
  - rewrite digits_from_shift. fold k. nia.
  - cbn [py_int]. eauto.
Qed.

Lemma lstrip_length s : (length (lstrip s) <= length s)%nat.
Proof.
  induction s as [|c s IH]; [reflexivity|].
  cbn [lstrip]. destruct (isspace c); cbn [length]; lia.
Qed.

Lemma rstrip_length s : (length (rstrip s) <= length s)%nat.
Proof.
  induction s as [|c s IH]; [reflexivity|].
  cbn [rstrip]. destruct (rstrip s); [destruct (isspace c)|]; cbn [length] in *; lia.
Qed.

Lemma strip_length s : (length (strip s) <= length s)%nat.
Proof.
  unfold strip. pose proof (rstrip_length (lstrip s)).
  pose proof (lstrip_length s). lia.
Qed.

Lemma move_line_group_lengths sp0 g1 sp1 g2 sp2 g3 rest :
  let n := length (move_line sp0 g1 sp1 g2 sp2 g3 ++ rest) in
  (length g1 <= n /\ length g2 <= n /\ length g3 <= n)%nat.
Proof.
  unfold move_line. cbn zeta.
  repeat (rewrite ?length_app; cbn [length]). lia.
Qed.

Lemma short_line_does_not_abort n line e :
  (length line <= 308)%nat -> parse_line n line <> Abort e.
Proof.
  intros Hlen H.
  destruct (blank_or_comment line) eqn:Hb.
  { rewrite parse_line_unfold, Hb in H. discriminate. }
  destruct (move_match (strip line)) as [[caps rest]|] eqn:Hm.
  2:{ rewrite parse_line_unfold, Hb, Hm in H. discriminate. }
  pose proof Hm as Hs. rewrite move_match_scan in Hs.
  destruct (scan_move_decompose _ _ _ Hs)
    as (sp0 & g1 & sp1 & g2 & sp2 & g3 & -> & Es & _ & _ & _ & N1 & N2 & N3).
  pose proof (move_line_group_lengths sp0 g1 sp1 g2 sp2 g3 rest) as L.
  cbn zeta in L. rewrite <- Es in L. pose proof (strip_length line) as Ls.
  destruct (matching_line_effect n line _ rest Hb Hm)
    as (h1 & h2 & h3 & f1 & f2 & f3 & E & _ & _ & _ & F1 & F2 & F3 & C).
  injection E as <- <- <-.
  destruct C as [(x & y & z & P & _)|[_ O]]; [rewrite P in H; discriminate|].
  destruct (numeral_up_to_308_converts g1 N1 ltac:(lia)) as (x1 & X1).
  destruct (numeral_up_to_308_converts g2 N2 ltac:(lia)) as (x2 & X2).
  destruct (numeral_up_to_308_converts g3 N3 ltac:(lia)) as (x3 & X3).
  rewrite F1 in X1. rewrite F2 in X2. rewrite F3 in X3. cbn [bind] in *.
  destruct O as [O|[O|O]]; congruence.
Qed.

(** X7. When the file opens and every line the iteration yields has
    at most 308 characters, no conversion of the parser raises: nothing is
    printed, and a file that decodes to its end is parsed to the
    instructions of its lines, in order.  The only exception that can then
    leave the parser is the [UnicodeDecodeError] of the iteration itself,
    on bytes that are not UTF-8. *)
Theorem lines_up_to_308_characters_parse lines decodes filepath
        (Hshort : Forall (fun l => (length l <= 308)%nat) lines) :
  parse_commands_from_file (Opened lines decodes) filepath
  = ([], if decodes then Ok (Some (flat_map line_instruction lines))
         else Raise UnicodeDecodeError).
Proof.
  unfold parse_commands_from_file.
  pose proof (parse_lines_prints_nothing 1 lines [] []) as Hout.
  pose proof (parse_lines_linewise 1 lines) as Hres.
  destruct (parse_lines 1 lines [] []) as [out r]. cbn [fst snd] in *.
  subst out r.
  assert (E : existsb line_aborts lines = false).
  { apply not_true_is_false. intro Hex.
    apply existsb_exists in Hex as (l & Hin & Hl).
    rewrite Forall_forall in Hshort. specialize (Hshort l Hin).
    unfold line_aborts in Hl.
    destruct (parse_line 1 l) eqn:P; try discriminate.
    now apply short_line_does_not_abort in P. }
  now rewrite E.
Qed.

Lemma lines_up_to_308_characters_parse_witness :
  parse_commands_from_file
    (Opened [lit "# move, 999999999999999999999999, 64, -1e3"; lit "say hi"]
            true)
    (lit "cb.mcfunction")
  = ([], Ok (Some (flat_map line_instruction
                     [lit "# move, 999999999999999999999999, 64, -1e3";
                      lit "say hi"]))).
Proof.
  apply (lines_up_to_308_characters_parse
           [lit "# move, 999999999999999999999999, 64, -1e3"; lit "say hi"]
           true).
  repeat constructor; cbn [length lit List.map list_ascii_of_string]; lia.
Defined.

(** ** The shape of a run *)

Lemma process_commands cfg st texts :
  sent (fst (process cfg st (List.map Command texts)))
  = column cfg (current_base_x st) (current_base_y st) (current_base_z st)
           (block_counter_current_stack st) texts
  /\ snd (process cfg st (List.map Command texts))
     = {| current_base_x := current_base_x st;
          current_base_y := current_base_y st + Z.of_nat (length texts);
          current_base_z := current_base_z st;
          block_counter_overall :=
            block_counter_overall st + Z.of_nat (length texts);
          block_counter_current_stack :=
            block_counter_current_stack st + Z.of_nat (length texts) |}.
Proof.
  revert st. induction texts as [|t texts IH]; intro st.
  - cbn [List.map process fst snd sent column length Z.of_nat].
    rewrite !Z.add_0_r. now destruct st.
  - cbn [List.map]. rewrite process_cons. cbn [fst snd].
    rewrite sent_app.
    destruct (IH (snd (step cfg st (Command t)))) as [IH1 IH2].
    rewrite IH1, IH2.
    cbn [step fst snd sent column current_base_x current_base_y current_base_z
         block_counter_overall block_counter_current_stack app length].
    split; [reflexivity|]. f_equal; lia.
Qed.

Lemma column_nth cfg x y z k texts i t :
  nth_error texts i = Some t ->
  nth_error (column cfg x y z k texts) i
  = Some (minecraft_setblock_cmd cfg x (y + Z.of_nat i) z
            (block_id_str (k + Z.of_nat i + 1))
            (nbt_data_str (escape_command_string t)
                          (auto_setting_str cfg (k + Z.of_nat i + 1)))).
Proof.
  revert y k i. induction texts as [|u texts IH]; intros y k i.
  - destruct i; discriminate.
  - destruct i as [|i]; cbn [nth_error column].
    + intros [= ->]. cbn [Z.of_nat]. now rewrite !Z.add_0_r.
    + intro H. rewrite (IH (y + 1) (k + 1) i H).
      rewrite Nat2Z.inj_succ.
      replace (y + Z.succ (Z.of_nat i)) with (y + 1 + Z.of_nat i) by lia.
      replace (k + Z.succ (Z.of_nat i) + 1) with (k + 1 + Z.of_nat i + 1) by lia.
      reflexivity.
Qed.

(** X8. A [Move] followed by [Command]s builds one vertical column: the
    clearing command if the bound allows, then the [i]-th command at
    [(x, y + i, z)], the first as the repeating block and the others as
    chain blocks, however many there are (also above height 128); after it
    the origin stands at [(x, y + n, z)] and [n] more blocks are counted. *)
Theorem a_stack_is_a_column cfg st x y z texts :
  sent (fst (process cfg st (Move x y z :: List.map Command texts)))
  = (if y <=? 128 then [fill_command x y z] else [])
    ++ column cfg x y z 0 texts
  /\ (forall i t,
         nth_error texts i = Some t ->
         nth_error (column cfg x y z 0 texts) i
         = Some (minecraft_setblock_cmd cfg x (y + Z.of_nat i) z
                   (if Nat.eqb i 0 then lit "minecraft:repeating_command_block"
                    else lit "minecraft:chain_command_block")
                   (nbt_data_str (escape_command_string t)
                      (if Nat.eqb i 0 then lit "0b"
                       else if chain_auto_on cfg then lit "1b"
                            else lit "0b"))))
  /\ snd (process cfg st (Move x y z :: List.map Command texts))
     = {| current_base_x := x;
          current_base_y := y + Z.of_nat (length texts);
          current_base_z := z;
          block_counter_overall :=
            block_counter_overall st + Z.of_nat (length texts);
          block_counter_current_stack := Z.of_nat (length texts) |}.
Proof.
  rewrite process_cons. cbn [fst snd]. rewrite sent_app.
  destruct (process_commands cfg (snd (step cfg st (Move x y z))) texts)
    as [E1 E2].
  rewrite E1, E2.
  cbn [step fst snd current_base_x current_base_y current_base_z
       block_counter_overall block_counter_current_stack].
  repeat split.
  - f_equal. rewrite sent_app. now destruct (y <=? 128).
  - intros i t Hi. rewrite (column_nth _ _ _ _ _ _ _ _ Hi).
    unfold block_id_str, auto_setting_str.
    replace (0 + Z.of_nat i + 1 =? 1) with (Nat.eqb i 0); [reflexivity|].
    destruct i; [reflexivity|]. symmetry. apply Z.eqb_neq. lia.
Qed.

Lemma process_counts cfg st ins :
  length (sent (fst (process cfg st ins)))
  = (length (filter is_command ins)
     + length (filter is_clearing_move ins))%nat
  /\ block_counter_overall (snd (process cfg st ins))
     = block_counter_overall st + Z.of_nat (length (filter is_command ins)).
Proof.
  revert st. induction ins as [|i ins IH]; intro st.
  - cbn. lia.
  - rewrite process_cons. cbn [fst snd]. rewrite sent_app, length_app.
    destruct (IH (snd (step cfg st i))) as [IH1 IH2]. rewrite IH1, IH2.
    destruct i as [x y z|t];
      cbn [step fst snd sent filter is_command is_clearing_move
           block_counter_overall].
    + rewrite sent_app. destruct (y <=? 128); cbn [sent app length]; lia.
    + cbn [length]. lia.
Qed.

(** X9. A run sends one command per [Command] and one per [Move] at
    height 128 or below, nothing else; the overall block counter ends at
    the number of [Command]s and no [Move] resets it. *)
Theorem one_command_sent_per_block_and_clearing cfg ins :
  length (sent (fst (process cfg (initial_state cfg) ins)))
  = (length (filter is_command ins)
     + length (filter is_clearing_move ins))%nat
  /\ block_counter_overall (snd (process cfg (initial_state cfg) ins))
     = Z.of_nat (length (filter is_command ins)).
Proof.
  destruct (process_counts cfg (initial_state cfg) ins) as [H1 H2].
  split; [exact H1|]. rewrite H2. reflexivity.
Qed.

Lemma sent_prints out : sent (List.map Print out) = [].
Proof. induction out as [|l out IH]; [reflexivity|exact IH]. Qed.

(** X10. The script parses the whole file before it sends anything:
    when some line holds a numeral too large for a double, no command is
    sent at all, not even those of the lines before it, and the script ends
    on the exception; otherwise exactly the commands of the instructions of
    the lines are sent.  A file that is missing, cannot be opened or
    cannot be decoded to its end sends nothing. *)
Theorem nothing_is_sent_before_the_file_is_parsed cfg lines e :
  sent (fst (main cfg (Opened lines true)))
  = (if existsb line_aborts lines then []
     else sent (fst (process cfg (initial_state cfg)
                       (flat_map line_instruction lines))))
  /\ snd (main cfg (Opened lines true))
     = (if existsb line_aborts lines then Uncaught OverflowError
        else match flat_map line_instruction lines with
             | [] => Exited
             | _ => Finished
             end)
  /\ sent (fst (main cfg NotFound)) = []
  /\ sent (fst (main cfg (OpenFails e))) = []
  /\ sent (fst (main cfg (Opened lines false))) = [].
Proof.
  assert (Hb : sent (banner cfg) = []) by reflexivity.
  split; [|split; [|split; [|split]]].
  - unfold main, parse_commands_from_file.
    pose proof (parse_lines_linewise 1 lines) as H.
    destruct (parse_lines 1 lines [] []) as [out r]. cbn [snd] in H. subst r.
    destruct (existsb line_aborts lines); cbn [bind fst].
    + now rewrite sent_app, Hb, sent_prints.
    + destruct (flat_map line_instruction lines) as [|i ins] eqn:E; cbn [fst].
      * now rewrite !sent_app, Hb, sent_prints.
      * destruct (process cfg (initial_state cfg) (i :: ins)) as [evs st'].
        cbn [fst]. rewrite !sent_app, Hb, sent_prints.
        cbn [app sent]. rewrite app_nil_r.
        now destruct i.
  - unfold main, parse_commands_from_file.
    pose proof (parse_lines_linewise 1 lines) as H.
    destruct (parse_lines 1 lines [] []) as [out r]. cbn [snd] in H. subst r.
    destruct (existsb line_aborts lines); cbn [bind snd]; [reflexivity|].
    destruct (flat_map line_instruction lines) as [|i ins]; [reflexivity|].
    now destruct (process cfg (initial_state cfg) (i :: ins)).
  - reflexivity.
  - reflexivity.
  - unfold main, parse_commands_from_file.
    destruct (parse_lines 1 lines [] []) as [out [i|e0]]; cbn [bind fst];
      now rewrite sent_app, Hb, sent_prints.
Qed.

(** ** More on the escaping *)

Lemma escape_char_length c :
  length (escape_char c) = (1 + (if is_special c then 1 else 0))%nat.
Proof.
  unfold escape_char, is_special.
  destruct (N.eqb_spec c backslash) as [->|]; [reflexivity|].
  destruct (N.eqb c quote); reflexivity.
Qed.

(** X11. The escaping works character by character: it distributes
    over concatenation, lengthens a text by exactly the number of its
    quotes and backslashes, and leaves a text unchanged exactly when it
    holds neither. *)
Theorem escape_grows_by_the_specials a b :
  escape_command_string (a ++ b)
  = escape_command_string a ++ escape_command_string b
  /\ length (escape_command_string a)
     = (length a + length (filter is_special a))%nat
  /\ (escape_command_string a = a <-> existsb is_special a = false).
Proof.
  rewrite !escape_by_character.
  assert (L : forall s, length (flat_map escape_char s)
                        = (length s + length (filter is_special s))%nat).
  { induction s as [|c s IH]; [reflexivity|].
    cbn [flat_map filter]. rewrite length_app, escape_char_length, IH.
    destruct (is_special c); cbn [length]; lia. }
  split; [apply flat_map_app|]. split; [apply L|].
  split.
  - intro E. pose proof (L a) as La. rewrite E in La.
    destruct (existsb is_special a) eqn:Ex; [|reflexivity].
    apply existsb_exists in Ex as (c & Hin & Hc).
    assert (In c (filter is_special a)) by (apply filter_In; auto).
    destruct (filter is_special a); [contradiction|cbn [length] in La; lia].
  - intro Ex. induction a as [|c a IH]; [reflexivity|].
    cbn [existsb] in Ex. apply orb_false_iff in Ex as [Hc Ha].
    cbn [flat_map]. rewrite (IH Ha).
    unfold escape_char. unfold is_special in Hc.
    apply orb_false_iff in Hc as [Hq Hb]. now rewrite Hb, Hq.
Qed.

(** ** What reaches the mouse and the keyboard *)







Example say_hi_at_the_keyboard :
  typed_commands (send_minecraft_command (lit "say hi")) = [lit "say hi"]
  /\ total_wait (send_minecraft_command (lit "say hi")) = 830.
Proof. split; reflexivity. Qed.

(** ** Skipped lines *)

Lemma skipped_line_gives_nothing line :
  blank_or_comment line = true ->
  line_instruction line = [] /\ line_aborts line = false.
Proof.
  intro H. unfold line_instruction, line_aborts.
  now rewrite parse_line_unfold, H.
Qed.

Lemma kept_line_gives_one line :
  blank_or_comment line = false -> line_aborts line = false ->
  length (line_instruction line) = 1%nat.
Proof.
  unfold line_instruction, line_aborts. intros Hb Ha.
  destruct (parse_line 1 line) eqn:E; try reflexivity; try discriminate.
  - rewrite parse_line_unfold, Hb in E.
    destruct (move_match (strip line)) as [[caps rest]|]; [|discriminate].
    destruct (x <- coordinate caps 1;; y <- coordinate caps 2;;
              z <- coordinate caps 3;; Ok (Move x y z)) as [i|e];
      [|destruct (is_value_error e)]; discriminate.
  - now apply parse_line_never_warns in E.
Qed.

Lemma filter_skipped_aborts lines :
  existsb line_aborts (filter (fun l => negb (blank_or_comment l)) lines)
  = existsb line_aborts lines.
Proof.
  induction lines as [|l lines IH]; [reflexivity|].
  cbn [filter existsb]. destruct (blank_or_comment l) eqn:Hb; cbn [negb].
  - destruct (skipped_line_gives_nothing l Hb) as [_ ->]. exact IH.
  - cbn [existsb]. now rewrite IH.
Qed.

Lemma filter_skipped_instructions lines :
  flat_map line_instruction
           (filter (fun l => negb (blank_or_comment l)) lines)
  = flat_map line_instruction lines.
Proof.
  induction lines as [|l lines IH]; [reflexivity|].
  cbn [filter flat_map]. destruct (blank_or_comment l) eqn:Hb; cbn [negb].
  - destruct (skipped_line_gives_nothing l Hb) as [-> _]. exact IH.
  - cbn [flat_map]. now rewrite IH.
Qed.

(** X13. Blank lines and [# comment] lines leave no trace: removing
    them from a file changes nothing of what the parser returns, and every
    other line gives exactly one instruction (unless a numeral too large
    for a double stops the parser). *)
Theorem skipped_lines_leave_no_trace lines decodes filepath :
  parse_commands_from_file
    (Opened (filter (fun l => negb (blank_or_comment l)) lines) decodes)
    filepath
  = parse_commands_from_file (Opened lines decodes) filepath
  /\ (existsb line_aborts lines = true
      \/ length (flat_map line_instruction lines)
         = length (filter (fun l => negb (blank_or_comment l)) lines)).
Proof.
  split.
  - unfold parse_commands_from_file.
    pose proof (parse_lines_linewise 1
                  (filter (fun l => negb (blank_or_comment l)) lines)) as Hk.
    pose proof (parse_lines_linewise 1 lines) as Hl.
    pose proof (parse_lines_prints_nothing 1
                  (filter (fun l => negb (blank_or_comment l)) lines) [] [])
      as Ok1.
    pose proof (parse_lines_prints_nothing 1 lines [] []) as Ok2.
    rewrite filter_skipped_aborts, filter_skipped_instructions in Hk.
    destruct (parse_lines 1 (filter _ lines) [] []) as [o1 r1].
    destruct (parse_lines 1 lines [] []) as [o2 r2].
    cbn [fst snd] in *. now subst.
  - destruct (existsb line_aborts lines) eqn:Hno; [now left|right].
    induction lines as [|l lines IH]; [reflexivity|].
    cbn [existsb] in Hno. apply orb_false_iff in Hno as [Hl Hrest].
    cbn [flat_map filter]. rewrite length_app, (IH Hrest).
    destruct (blank_or_comment l) eqn:Hb; cbn [negb length].
    + now destruct (skipped_line_gives_nothing l Hb) as [-> _].
    + now rewrite (kept_line_gives_one l Hb Hl).
Qed.

(** ** Numerals that cannot be a double *)

Lemma binade_upper p q :
  0 < p -> 0 < q ->
  if 0 <=? binade p q + 1 then p < q * 2 ^ (binade p q + 1)
  else p * 2 ^ (- (binade p q + 1)) < q.
Proof.
  intros Hp Hq. unfold binade.
  pose proof (Z.log2_spec p Hp) as [Lp Up].
  pose proof (Z.log2_spec q Hq) as [Lq Uq].
  pose proof (Z.log2_nonneg p) as Np. pose proof (Z.log2_nonneg q) as Nq.
  replace (Z.succ (Z.log2 p)) with (Z.log2 p + 1) in Up by lia.
  set (lp := Z.log2 p) in *. set (lq := Z.log2 q) in *.
  set (l := lp - lq).
  destruct (0 <=? l) eqn:Hl.
  - pose proof Hl as Hl'. apply Z.leb_le in Hl'.
    destruct (q * 2 ^ l <=? p) eqn:Ha.
    + assert (H1 : (0 <=? l + 1) = true) by (apply Z.leb_le; lia).
      rewrite H1.
      assert (E : 2 ^ (lp + 1) = 2 ^ lq * 2 ^ (l + 1)).
      { rewrite <- Z.pow_add_r by lia. f_equal. lia. }
      assert (0 < 2 ^ (l + 1)) by (apply Z.pow_pos_nonneg; lia). nia.
    + replace (l - 1 + 1) with l by lia. rewrite Hl.
      now apply Z.leb_gt in Ha.
  - pose proof Hl as Hl'. apply Z.leb_gt in Hl'.
    destruct (q <=? p * 2 ^ (- l)) eqn:Ha.
    + destruct (0 <=? l + 1) eqn:H1.
      * assert (l = -1) by (apply Z.leb_le in H1; lia).
        replace (l + 1) with 0 by lia. change (2 ^ 0) with 1.
        assert (E : lq = lp + 1) by lia. rewrite E in Lq. lia.
      * apply Z.leb_gt in H1.
        assert (E : 2 ^ lq = 2 ^ (lp + 1) * 2 ^ (- (l + 1))).
        { rewrite <- Z.pow_add_r by lia. f_equal. lia. }
        assert (0 < 2 ^ (- (l + 1))) by (apply Z.pow_pos_nonneg; lia). nia.
    + replace (l - 1 + 1) with l by lia. rewrite Hl.
      now apply Z.leb_gt in Ha.
Qed.

Lemma nearest_double_infinite neg p q :
  0 < q -> 2 ^ 1024 * q <= p -> nearest_double neg p q = Infinite neg.
Proof.
  intros Hq Hbig. unfold nearest_double.
  assert (H1024 : 0 < 2 ^ 1024) by reflexivity.
  assert (Hp : 0 < p) by nia.
  destruct (Z.eqb_spec p 0) as [E|_]; [lia|].
  pose proof (binade_lower p q Hp Hq) as Hlo.
  pose proof (binade_upper p q Hp Hq) as Hup.
  set (b := binade p q) in *.
  assert (Hb : 1024 <= b).
  { destruct (0 <=? b + 1) eqn:H1.
    - apply Z.leb_le in H1.
      destruct (Z_le_gt_dec 1024 b) as [|Hlt]; [assumption|exfalso].
      assert (2 ^ (b + 1) <= 2 ^ 1024) by (apply Z.pow_le_mono_r; lia). nia.
    - apply Z.leb_gt in H1.
      assert (0 < 2 ^ (- (b + 1))) by (apply Z.pow_pos_nonneg; lia). nia. }
  assert (Hb0 : (0 <=? b) = true) by (apply Z.leb_le; lia).
  rewrite Hb0 in Hlo.
  set (e := Z.max (b - 52) (-1074)).
  assert (Ee : e = b - 52) by lia.
  assert (He : (0 <=? e) = true) by (apply Z.leb_le; lia).
  rewrite He. cbn [andb].
  assert (Hpe : 0 < 2 ^ e) by (apply Z.pow_pos_nonneg; lia).
  assert (Epow : 2 ^ b = 2 ^ 52 * 2 ^ e).
  { rewrite <- Z.pow_add_r by lia. f_equal. lia. }
  set (Q := q * 2 ^ e) in *.
  assert (HQ : 0 < Q) by (unfold Q; nia).
  assert (Hd : 2 ^ 52 <= p / Q).
  { apply Z.div_le_lower_bound; [assumption|]. unfold Q. nia. }
  assert (Hm : p / Q <= round_half_even p Q)
    by (destruct (round_half_even_cases p Q) as [->|[-> _]]; lia).
  assert (He972 : 2 ^ 972 <= 2 ^ e) by (apply Z.pow_le_mono_r; lia).
  assert (Hval : 2 ^ 1024 <= round_half_even p Q * 2 ^ e).
  { change (2 ^ 1024) with (2 ^ 52 * 2 ^ 972).
    apply Z.mul_le_mono_nonneg; lia. }
  apply Z.leb_le in Hval. now rewrite Hval.
Qed.

Lemma digits_value_one_and_zeros n :
  digits_value (49%N :: repeat 48%N n) = 10 ^ Z.of_nat n.
Proof.
  unfold digits_value. cbn [digits_from fold_left].
  change (0 * 10 + digit_of 49%N) with 1.
  fold (digits_from 1 (repeat 48%N n)).
  rewrite digits_from_shift, repeat_length.
  assert (E : digits_value (repeat 48%N n) = 0).
  { induction n as [|n IH]; [reflexivity|].
    unfold digits_value in *. cbn [repeat digits_from fold_left].
    exact IH. }
  rewrite E. lia.
Qed.

Lemma repeat_zero_decimal n : all_decimal (repeat 48%N n).
Proof. induction n; constructor; [reflexivity|assumption]. Qed.

(** X14. Every line [# move, 1] followed by 309 zeros or more and
    [, 0, 0] stops the parser with [OverflowError]: the numeral is at least
    [2^1024], its double is infinite, and [except ValueError] lets the
    exception through. *)
Theorem huge_numerals_always_abort n zeros (Hmany : (309 <= zeros)%nat) :
  parse_line n (huge_move zeros) = Abort OverflowError.
Proof.
  set (g := 49%N :: repeat 48%N zeros).
  assert (Hg : is_numeral g).
  { exists [], g, [], []. repeat split; auto; try discriminate.
    - subst g. now rewrite !app_nil_r.
    - constructor; [reflexivity|apply repeat_zero_decimal].
    - constructor. }
  assert (H0 : is_numeral (lit "0")).
  { exists [], (lit "0"), [], []. repeat split; auto; try discriminate;
      repeat constructor. }
  assert (Eline : huge_move zeros
                  = move_line (lit " ") g (lit " ") (lit "0") (lit " ")
                              (lit "0") ++ []).
  { unfold huge_move, move_line, g. rewrite app_nil_r.
    change (lit "# move, 1") with (lit "# move," ++ lit " " ++ [49%N]).
    rewrite <- !app_assoc. reflexivity. }
  assert (Hm : move_match (huge_move zeros) = Some ([g; lit "0"; lit "0"], [])).
  { rewrite move_match_scan, Eline.
    apply scan_move_line; auto; repeat constructor. }
  pose proof (strip_matched_then_text _ _ [] Hm) as Es.
  rewrite app_nil_r in Es. cbn [rstrip] in Es. rewrite app_nil_r in Es.
  assert (Hm' : move_match (strip (huge_move zeros))
                = Some ([g; lit "0"; lit "0"], [])) by now rewrite Es.
  rewrite parse_line_unfold, (matched_line_not_skipped _ _ _ Hm'), Hm'.
  unfold coordinate at 1. cbn [nth Nat.sub].
  assert (Ef : py_float g = Ok (Infinite false)).
  { replace g with ([] ++ g ++ [] ++ []) by (cbn [app]; now rewrite app_nil_r).
    rewrite py_float_exact; auto; try discriminate.
    - cbn [digits_from fold_left length Z.of_nat]. change (10 ^ 0) with 1.
      f_equal. apply nearest_double_infinite; [lia|].
      subst g. rewrite digits_value_one_and_zeros.
      assert (2 ^ 1024 < 10 ^ 309) by reflexivity.
      assert (10 ^ 309 <= 10 ^ Z.of_nat zeros)
        by (apply Z.pow_le_mono_r; lia).
      lia.
    - constructor; [reflexivity|apply repeat_zero_decimal].
    - constructor. }
  rewrite Ef. reflexivity.
Qed.

Lemma huge_numerals_always_abort_witness :
  parse_line 5 (huge_move 400) = Abort OverflowError.
Proof.
  apply huge_numerals_always_abort.
  apply Nat.leb_le. vm_compute. reflexivity.
Defined.
